(** * newcli.py: dilated file transfer over magic-wormhole

    A shallow embedding of [src/newcli.py]: the 8-byte length codec, the
    receive and send protocols, the control protocol and the sending loop of
    [open], together with the properties the specification states about
    them. *)

From Stdlib Require Import ZArith List Lia Bool String Ascii.
From Stdlib Require Import Strings.Byte.
From stdpp Require Import base option list gmap strings pretty.

Local Open Scope Z_scope.

(** ** Python values and exceptions *)

(** A byte string ([bytes]). *)
Abbreviation bytes := (list byte).

(** The Python objects the program handles: what [json.loads] can return,
    plus byte strings.  A float keeps the text of its literal: no function
    of the program computes with one. *)
#[warnings="-register-all"]
Inductive pyval : Type :=
| PyNone
| PyBool (b : bool)
| PyInt (z : Z)
| PyFloat (literal : string)
| PyStr (s : string)
| PyBytes (b : bytes)
| PyList (l : list pyval)
| PyDict (items : list (string * pyval)).

(** A message (header, ack, control): a [dict] with string keys. *)
Abbreviation dict := (gmap string pyval).

(** The text of the [RuntimeError]s the program raises, with the values
    its format strings interpolate. *)
Inductive runtime_msg : Type :=
| UnknownHeaderType (v : pyval)
| UnknownCompression (v : pyval)
| UnknownSize (v : pyval)
| ReceiverOverflow
| UnexpectedClose
| DataAfterDone
| PrematureAck
| AckNotOk (ack : dict)
| AckBadHash (got : pyval) (expected : string).

(** The exceptions; [LibraryError] stands for those of the collaborators
    ([InsecurePath], a JSON decoding error). *)
Inductive exn : Type :=
| TypeError (what : pyval)
| ValueError
| KeyError (key : string)
| AttributeError (name : string)
| RuntimeError (msg : runtime_msg)
| LibraryError (what : string).

(** The outcome of a call: a value, or a raised exception. *)
Inductive result (A : Type) : Type :=
| Ok (a : A)
| Raise (e : exn).
Arguments Ok {A} a.
Arguments Raise {A} e.

(** ** The length codec: [to_be8], [from_be8] *)

Definition Z_of_byte (b : byte) : Z := Z.of_N (Byte.to_N b).

Definition byte_of_Z (z : Z) : byte :=
  match Byte.of_N (Z.to_N (z mod 256)) with
  | Some b => b
  | None => "000"%byte
  end.

(** [struct.pack(">Q", v)] generalised to [n] bytes: most significant byte
    first. *)
Fixpoint be_pack (n : nat) (v : Z) : bytes :=
  match n with
  | O => []
  | S k => be_pack k (v / 256) ++ [byte_of_Z v]
  end.

(** [struct.unpack(">Q", b)[0]]: the big-endian value of a byte string. *)
Definition be_unpack (b : bytes) : Z :=
  fold_left (fun acc x => acc * 256 + Z_of_byte x) b 0.

Definition to_be8 (value : Z) : result bytes :=
  if negb ((0 <=? value) && (value <? 2 ^ 64)) then Raise ValueError
  else Ok (be_pack 8 value).

Definition from_be8 (b : pyval) : result Z :=
  match b with
  | PyBytes bs =>
      if negb (Nat.eqb (length bs) 8) then Raise ValueError
      else Ok (be_unpack bs)
  | _ => Raise (TypeError b)
  end.

(** ** Statements that mutate an object and may raise

    A method body is a function from the object's state to its new state
    and an outcome.  What a method has assigned before it raises stays
    assigned: the state is returned with the exception as well. *)

Definition M (S A : Type) : Type := S -> S * result A.

Definition ret {S A} (a : A) : M S A := fun s => (s, Ok a).
Definition raise {S A} (e : exn) : M S A := fun s => (s, Raise e).
Definition lift {S A} (r : result A) : M S A := fun s => (s, r).
Definition get {S} : M S S := fun s => (s, Ok s).
Definition modify {S} (f : S -> S) : M S unit := fun s => (f s, Ok tt).
Definition bind {S A B} (m : M S A) (k : A -> M S B) : M S B :=
  fun s => match m s with
           | (s', Ok a) => k a s'
           | (s', Raise e) => (s', Raise e)
           end.

Notation "'let*' x ':=' m 'in' k" := (bind m (fun x => k))
  (at level 10, x name, m at level 100, k at level 200).
Notation "m ';;;' k" := (bind m (fun _ => k))
  (at level 100, k at level 200, right associativity).

(** Runs a method of a component held in a field of the state. *)
Definition within {S T A} (proj : S -> T) (inj : T -> S -> S) (m : M T A) : M S A :=
  fun s => let (t', r) := m (proj s) in (inj t' s, r).

(** ** Collaborators outside the file

    [wormhole.util], [hashlib] and [twisted.python.filepath] are used
    through these four functions. *)
Class Collaborators : Type := {
  (** [wormhole.util.dict_to_bytes]: the serialised form of a message. *)
  dict_to_bytes : dict -> bytes;
  (** [wormhole.util.bytes_to_dict]: the message, or the decoder's error. *)
  bytes_to_dict : bytes -> result dict;
  (** [hashlib.sha256(data).hexdigest()]. *)
  sha256_hexdigest : bytes -> string;
  (** [FilePath("~/Downloads").child(name)]: the child's path, or
      [InsecurePath]. *)
  downloads_child : string -> result string
}.

(** Python's [len], as an integer. *)
Definition len {A} (l : list A) : Z := Z.of_nat (length l).

(** [b[i:j]] and [b[i:]] for [0 <= i <= j]. *)
Definition slice {A} (i j : Z) (b : list A) : list A :=
  firstn (Z.to_nat (j - i)) (skipn (Z.to_nat i) b).
Definition slice_from {A} (i : Z) (b : list A) : list A := skipn (Z.to_nat i) b.

(** [d[key]]. *)
Definition getitem (d : dict) (key : string) : result pyval :=
  match d !! key with
  | Some v => Ok v
  | None => Raise (KeyError key)
  end.

(** [v == s] for a string literal [s]: only a [str] equals a [str]. *)
Definition eq_str (v : pyval) (s : string) : bool :=
  match v with
  | PyStr s' => String.eqb s' s
  | _ => false
  end.

(** [isinstance(v, six.integer_types)], with the integer it stands for:
    [bool] is a subclass of [int]. *)
Definition as_integer (v : pyval) : option Z :=
  match v with
  | PyInt z => Some z
  | PyBool b => Some (if b then 1 else 0)
  | _ => None
  end.

(** The calls made on a transport, in order. *)
Inductive transport_call : Type :=
| Twrite (data : bytes)
| TloseConnection.

(** The calls made on a [OneShotObserver], in order: [fire(result)] and
    [error(failure)].  Whoever waits on [when_fired()] is given what the
    observer was called with. *)
Inductive observer_call (A : Type) : Type :=
| Fire (result : A)
| Error (failure : string).
Arguments Fire {A} result.
Arguments Error {A} failure.

(** A file object opened for writing: what has been written to it, and
    whether it has been closed.  Writing to a closed file raises
    [ValueError]. *)
Record file_object : Type := { written : bytes; closed : bool }.

Definition file_open_wb : file_object := {| written := []; closed := false |}.

Definition file_write (data : bytes) (f : file_object) : result file_object :=
  if closed f then Raise ValueError
  else Ok {| written := written f ++ data; closed := false |}.

Definition file_close (f : file_object) : file_object :=
  {| written := written f; closed := true |}.

(** ** class Receiver *)

Module Receiver.

(** [hasher] holds the bytes the SHA-256 object has been updated with;
    [progress] the count shown by the progress bar. *)
Record t : Type := {
  fd : file_object;
  remaining : Z;
  hasher : bytes;
  progress : Z
}.

Definition set_fd (f : file_object) (self : t) : t :=
  {| fd := f; remaining := remaining self; hasher := hasher self;
     progress := progress self |}.
Definition set_remaining (n : Z) (self : t) : t :=
  {| fd := fd self; remaining := n; hasher := hasher self;
     progress := progress self |}.
Definition set_hasher (h : bytes) (self : t) : t :=
  {| fd := fd self; remaining := remaining self; hasher := h;
     progress := progress self |}.
Definition set_progress (n : Z) (self : t) : t :=
  {| fd := fd self; remaining := remaining self; hasher := hasher self;
     progress := n |}.

Section Methods.
Context `{Collaborators}.

Definition finish : M t dict :=
  modify (fun self => set_fd (file_close (fd self)) self) ;;;
  let* self := get in
  let datahash_hex := sha256_hexdigest (hasher self) in
  let ack : dict := {[ "ack" := PyStr "ok"; "sha256" := PyStr datahash_hex ]} in
  ret ack.

(** Returns the ack when the transfer completes, [None] otherwise. *)
Definition write (data : bytes) : M t (option dict) :=
  modify (fun self => set_hasher (hasher self ++ data) self) ;;;
  let* self := get in
  let* fd' := lift (file_write data (fd self)) in
  modify (set_fd fd') ;;;
  modify (fun self => set_progress (progress self + len data) self) ;;;
  modify (fun self => set_remaining (remaining self - len data) self) ;;;
  let* self := get in
  if remaining self =? 0 then
    let* ack := finish in ret (Some ack)
  else if remaining self <? 0 then
    raise (RuntimeError ReceiverOverflow)
  else ret None.

Definition close : M t unit :=
  let* self := get in
  if negb (remaining self =? 0) then raise (RuntimeError UnexpectedClose)
  else ret tt.

End Methods.

(** Successive calls of [write], one per chunk: the final state and the
    outcome of each call.  The object keeps its state across a call that
    raised. *)
Fixpoint write_each `{Collaborators} (chunks : list bytes) (self : t)
  : t * list (result (option dict)) :=
  match chunks with
  | [] => (self, [])
  | data :: chunks' =>
      let (self', r) := write data self in
      let (self'', rs) := write_each chunks' self' in
      (self'', r :: rs)
  end.

End Receiver.

(** ** class ReceiverFactory *)

Module ReceiverFactory.

(** The factory's view of the filesystem: the paths that exist. *)
Record t : Type := { existing : gset string }.

Section Methods.
Context `{Collaborators}.

(** ["%s (%d)" % (name, count)] *)
Definition numbered (name : string) (count : Z) : string :=
  (name +:+ " (" +:+ pretty count +:+ ")")%string.

(** The loop [while target.exists(): ...] of [incoming_file], run for
    at most [fuel] iterations; [None] when it has not left the loop by
    then. *)
Fixpoint free_target (fuel : nat) (name : string) (count : Z)
    (target : string) (self : t) : option (result string) :=
  if bool_decide (target ∈ existing self) then
    match fuel with
    | O => None
    | S fuel' =>
        match downloads_child (numbered name count) with
        | Raise e => Some (Raise e)
        | Ok target' => free_target fuel' name (count + 1) target' self
        end
    end
  else Some (Ok target).

(** The checks on the header, lines 122 to 128: the integer [size]. *)
Definition check_header (header : dict) : result Z :=
  match getitem header "type" with
  | Raise e => Raise e
  | Ok ty =>
      if negb (eq_str ty "file") then
        Raise (RuntimeError (UnknownHeaderType ty))
      else
        match header !! "compression" with
        | Some c => Raise (RuntimeError (UnknownCompression c))
        | None =>
            match getitem header "size" with
            | Raise e => Raise e
            | Ok size =>
                match as_integer size with
                | None => Raise (RuntimeError (UnknownSize size))
                | Some n => Ok n
                end
            end
        end
  end.

(** [None] when the naming loop has not ended within [fuel]
    iterations.  A [name] that is not a [str] makes [child] raise
    [TypeError].  Opening a path that does not exist is taken to succeed;
    it adds the path to those that exist. *)
Definition incoming_file (fuel : nat) (header : dict) (self : t)
  : option (t * result Receiver.t) :=
  match check_header header with
  | Raise e => Some (self, Raise e)
  | Ok size =>
      match getitem header "name" with
      | Raise e => Some (self, Raise e)
      | Ok (PyStr name) =>
          match downloads_child name with
          | Raise e => Some (self, Raise e)
          | Ok target =>
              match free_target fuel name 1 target self with
              | None => None
              | Some (Raise e) => Some (self, Raise e)
              | Some (Ok target) =>
                  let fd := file_open_wb in
                  let hasher : bytes := [] in
                  let progress := 0 in
                  Some ({| existing := {[ target ]} ∪ existing self |},
                        Ok {| Receiver.fd := fd; Receiver.remaining := size;
                              Receiver.hasher := hasher;
                              Receiver.progress := progress |})
              end
          end
      | Ok other => Some (self, Raise (TypeError other))
      end
  end.

End Methods.

End ReceiverFactory.

(** ** Framing

    The steps the three [dataReceived] methods share once the new data is
    in the buffer (lines 61 to 67 and 71, 191 to 197, 241 to 247): no
    frame while fewer than 8 bytes, or fewer than [8 + size] bytes, are
    buffered; otherwise the [size] bytes after the prefix, and the bytes
    after those. *)
Definition split_frame (buffer : bytes) : result (option (bytes * bytes)) :=
  let have := len buffer in
  if have <? 8 then Ok None
  else
    match from_be8 (PyBytes (slice 0 8 buffer)) with
    | Raise e => Raise e
    | Ok size =>
        if have <? 8 + size then Ok None
        else Ok (Some (slice 8 (8 + size) buffer, slice_from (8 + size) buffer))
    end.

(** What has been delivered after [k] of the [chunks]. *)
Definition delivered (k : nat) (chunks : list bytes) : bytes :=
  concat (firstn k chunks).

(** [if resp_msg:] for a value that is [None] or a [dict]. *)
Definition truthy (resp_msg : option dict) : bool :=
  match resp_msg with
  | None => false
  | Some d => negb (bool_decide (d = ∅))
  end.

(** ** class ReceiveProtocol *)

Module ReceiveProtocol.

(** [_header_buffer] is [None] once the attribute has been deleted. *)
Record t : Type := {
  _in_header : bool;
  _header_buffer : option bytes;
  _receiver : option Receiver.t;
  transport : list transport_call;
  factory : ReceiverFactory.t
}.

Definition init (factory : ReceiverFactory.t) : t :=
  {| _in_header := true; _header_buffer := Some []; _receiver := None;
     transport := []; factory := factory |}.

Definition set_header_buffer (b : option bytes) (self : t) : t :=
  {| _in_header := _in_header self; _header_buffer := b;
     _receiver := _receiver self; transport := transport self;
     factory := factory self |}.
Definition set_factory (f : ReceiverFactory.t) (self : t) : t :=
  {| _in_header := _in_header self; _header_buffer := _header_buffer self;
     _receiver := _receiver self; transport := transport self;
     factory := f |}.
Definition set_receiver (r : option Receiver.t) (self : t) : t :=
  {| _in_header := _in_header self; _header_buffer := _header_buffer self;
     _receiver := r; transport := transport self; factory := factory self |}.
Definition set_in_header (b : bool) (self : t) : t :=
  {| _in_header := b; _header_buffer := _header_buffer self;
     _receiver := _receiver self; transport := transport self;
     factory := factory self |}.
Definition transport_write (data : bytes) (self : t) : t :=
  {| _in_header := _in_header self; _header_buffer := _header_buffer self;
     _receiver := _receiver self;
     transport := transport self ++ [Twrite data];
     factory := factory self |}.

Section Methods.
Context `{Collaborators}.

(** The branch [if self._in_header:] of [dataReceived]: [Ok None] when
    the method returns from inside it, [Ok (Some data)] when it falls
    through with [data]; [None] when [incoming_file] has not returned
    within [fuel]. *)
Definition header_phase (fuel : nat) (data : bytes) (self : t)
  : option (t * result (option bytes)) :=
  if _in_header self then
    match _header_buffer self with
    | None => Some (self, Raise (AttributeError "_header_buffer"))
    | Some buffer =>
        let self := set_header_buffer (Some (buffer ++ data)) self in
        match split_frame (buffer ++ data) with
        | Raise e => Some (self, Raise e)
        | Ok None => Some (self, Ok None)
        | Ok (Some (header_bytes, rest)) =>
            match bytes_to_dict header_bytes with
            | Raise e => Some (self, Raise e)
            | Ok header =>
                match ReceiverFactory.incoming_file fuel header (factory self) with
                | None => None
                | Some (factory', Raise e) =>
                    Some (set_factory factory' self, Raise e)
                | Some (factory', Ok receiver) =>
                    let self := set_factory factory' self in
                    let self := set_receiver (Some receiver) self in
                    let self := set_in_header false self in
                    let self := set_header_buffer None self in
                    Some (self, Ok (Some rest))
                end
            end
        end
    end
  else Some (self, Ok (Some data)).

(** [self._receiver.write(data)] *)
Definition receiver_write (data : bytes) : M t (option dict) :=
  let* self := get in
  match _receiver self with
  | None => raise (AttributeError "write")
  | Some receiver =>
      within (fun _ => receiver) (fun r => set_receiver (Some r))
             (Receiver.write data)
  end.

(** Lines 74 to 78. *)
Definition write_and_reply (data : bytes) : M t unit :=
  let* resp_msg := receiver_write data in
  if truthy resp_msg then
    match resp_msg with
    | Some resp_msg =>
        let resp_bytes := dict_to_bytes resp_msg in
        let* prefix := lift (to_be8 (len resp_bytes)) in
        modify (transport_write prefix) ;;;
        modify (transport_write resp_bytes)
    | None => ret tt
    end
  else ret tt.

Definition dataReceived (fuel : nat) (data : bytes) (self : t)
  : option (t * result unit) :=
  match header_phase fuel data self with
  | None => None
  | Some (self, Raise e) => Some (self, Raise e)
  | Some (self, Ok None) => Some (self, Ok tt)
  | Some (self, Ok (Some data)) => Some (write_and_reply data self)
  end.

Definition connectionLost : M t unit :=
  let* self := get in
  match _receiver self with
  | Some receiver =>
      within (fun _ => receiver) (fun r => set_receiver (Some r))
             Receiver.close
  | None => ret tt
  end.

End Methods.

End ReceiveProtocol.

(** ** class SendProtocol *)

(** [basic.FileSender.CHUNK_SIZE] *)
Definition CHUNK_SIZE : nat := Nat.pow 2 14.

Module SendProtocol.

(** [_fd] is the part of the source file not read yet; reading it is
    taken to succeed.  [hasher] and
    [progress] are the locals of [connectionMade] that [_count_and_hash]
    closes over; [producing] tells whether the [FileSender] started by
    [connectionMade] is still registered with the transport. *)
Record t : Type := {
  _fd : bytes;
  _header : dict;
  _size : Z;
  _done_observer : list (observer_call string);
  _expected_hexhash : option string;
  _ack_buffer : bytes;
  _done : bool;
  transport : list transport_call;
  hasher : bytes;
  progress : Z;
  producing : bool
}.

Definition init (fd : bytes) (header : dict) (size : Z) : t :=
  {| _fd := fd; _header := header; _size := size; _done_observer := [];
     _expected_hexhash := None; _ack_buffer := []; _done := false;
     transport := []; hasher := []; progress := 0; producing := false |}.

Definition set_fd (v : bytes) (self : t) : t :=
  {| _fd := v; _header := _header self; _size := _size self;
     _done_observer := _done_observer self;
     _expected_hexhash := _expected_hexhash self;
     _ack_buffer := _ack_buffer self; _done := _done self;
     transport := transport self; hasher := hasher self;
     progress := progress self; producing := producing self |}.
Definition set_done_observer (v : list (observer_call string)) (self : t) : t :=
  {| _fd := _fd self; _header := _header self; _size := _size self;
     _done_observer := v;
     _expected_hexhash := _expected_hexhash self;
     _ack_buffer := _ack_buffer self; _done := _done self;
     transport := transport self; hasher := hasher self;
     progress := progress self; producing := producing self |}.
Definition set_expected_hexhash (v : option string) (self : t) : t :=
  {| _fd := _fd self; _header := _header self; _size := _size self;
     _done_observer := _done_observer self;
     _expected_hexhash := v;
     _ack_buffer := _ack_buffer self; _done := _done self;
     transport := transport self; hasher := hasher self;
     progress := progress self; producing := producing self |}.
Definition set_ack_buffer (v : bytes) (self : t) : t :=
  {| _fd := _fd self; _header := _header self; _size := _size self;
     _done_observer := _done_observer self;
     _expected_hexhash := _expected_hexhash self;
     _ack_buffer := v; _done := _done self;
     transport := transport self; hasher := hasher self;
     progress := progress self; producing := producing self |}.
Definition set_done (v : bool) (self : t) : t :=
  {| _fd := _fd self; _header := _header self; _size := _size self;
     _done_observer := _done_observer self;
     _expected_hexhash := _expected_hexhash self;
     _ack_buffer := _ack_buffer self; _done := v;
     transport := transport self; hasher := hasher self;
     progress := progress self; producing := producing self |}.
Definition set_transport (v : list transport_call) (self : t) : t :=
  {| _fd := _fd self; _header := _header self; _size := _size self;
     _done_observer := _done_observer self;
     _expected_hexhash := _expected_hexhash self;
     _ack_buffer := _ack_buffer self; _done := _done self;
     transport := v; hasher := hasher self;
     progress := progress self; producing := producing self |}.
Definition set_hasher (v : bytes) (self : t) : t :=
  {| _fd := _fd self; _header := _header self; _size := _size self;
     _done_observer := _done_observer self;
     _expected_hexhash := _expected_hexhash self;
     _ack_buffer := _ack_buffer self; _done := _done self;
     transport := transport self; hasher := v;
     progress := progress self; producing := producing self |}.
Definition set_progress (v : Z) (self : t) : t :=
  {| _fd := _fd self; _header := _header self; _size := _size self;
     _done_observer := _done_observer self;
     _expected_hexhash := _expected_hexhash self;
     _ack_buffer := _ack_buffer self; _done := _done self;
     transport := transport self; hasher := hasher self;
     progress := v; producing := producing self |}.
Definition set_producing (v : bool) (self : t) : t :=
  {| _fd := _fd self; _header := _header self; _size := _size self;
     _done_observer := _done_observer self;
     _expected_hexhash := _expected_hexhash self;
     _ack_buffer := _ack_buffer self; _done := _done self;
     transport := transport self; hasher := hasher self;
     progress := progress self; producing := v |}.

Definition transport_write (data : bytes) : M t unit :=
  modify (fun self => set_transport (transport self ++ [Twrite data]) self).
Definition transport_loseConnection : M t unit :=
  modify (fun self => set_transport (transport self ++ [TloseConnection]) self).
Definition observe (c : observer_call string) : M t unit :=
  modify (fun self => set_done_observer (_done_observer self ++ [c]) self).

Section Methods.
Context `{Collaborators}.

Definition connectionMade : M t unit :=
  let* self := get in
  let header_bytes := dict_to_bytes (_header self) in
  transport_write header_bytes ;;;
  modify (set_hasher []) ;;;
  modify (set_progress 0) ;;;
  modify (set_producing true).

(** [_count_and_hash], the transform given to the [FileSender]. *)
Definition _count_and_hash (data : bytes) : M t bytes :=
  modify (fun self => set_hasher (hasher self ++ data) self) ;;;
  modify (fun self => set_progress (progress self + len data) self) ;;;
  ret data.

(** One pull of the transport on the [FileSender]: it reads a chunk,
    passes it through the transform and writes it; at the end of the
    file it unregisters and runs the callback [done]. *)
Definition resumeProducing : M t unit :=
  let* self := get in
  if producing self then
    let chunk := firstn CHUNK_SIZE (_fd self) in
    modify (set_fd (skipn CHUNK_SIZE (_fd self))) ;;;
    match chunk with
    | [] =>
        modify (set_producing false) ;;;
        modify (fun self =>
                  set_expected_hexhash (Some (sha256_hexdigest (hasher self))) self)
    | _ =>
        let* chunk := _count_and_hash chunk in
        transport_write chunk
    end
  else ret tt.

Definition process_ack (ack : dict) : M t unit :=
  let* self := get in
  match _expected_hexhash self with
  | None => raise (RuntimeError PrematureAck)
  | Some expected =>
      let* a := lift (getitem ack "ack") in
      if negb (eq_str a "ok") then raise (RuntimeError (AckNotOk ack))
      else
        let* h := lift (getitem ack "sha256") in
        if negb (eq_str h expected) then
          raise (RuntimeError (AckBadHash h expected))
        else observe (Fire "ok"%string)
  end.

Definition dataReceived (data : bytes) : M t unit :=
  let* self := get in
  if _done self then raise (RuntimeError DataAfterDone)
  else
    modify (fun self => set_ack_buffer (_ack_buffer self ++ data) self) ;;;
    let* self := get in
    let* frame := lift (split_frame (_ack_buffer self)) in
    match frame with
    | None => ret tt
    | Some (ack_bytes, _) =>
        let* ack := lift (bytes_to_dict ack_bytes) in
        modify (set_done true) ;;;
        transport_loseConnection ;;;
        process_ack ack
    end.

Definition connectionLost : M t unit :=
  let* self := get in
  if negb (_done self) then observe (Error "premature close"%string)
  else ret tt.

End Methods.

(** [n] successive pulls of the transport. *)
Fixpoint pull `{Collaborators} (n : nat) (self : t) : t :=
  match n with
  | O => self
  | S n' => pull n' (fst (resumeProducing self))
  end.

End SendProtocol.

(** ** class ControlProtocol *)

Module ControlProtocol.

Record t : Type := {
  _buffer : bytes;
  _done : list (observer_call dict);
  transport : list transport_call
}.

Definition init : t := {| _buffer := []; _done := []; transport := [] |}.

Definition transport_write (data : bytes) : M t unit :=
  modify (fun self => {| _buffer := _buffer self; _done := _done self;
                         transport := transport self ++ [Twrite data] |}).

Section Methods.
Context `{Collaborators}.

Definition send (msg : dict) : M t unit :=
  let msg_bytes := dict_to_bytes msg in
  let* prefix := lift (to_be8 (len msg_bytes)) in
  transport_write prefix ;;;
  transport_write msg_bytes.

Definition dataReceived (data : bytes) : M t unit :=
  modify (fun self => {| _buffer := _buffer self ++ data; _done := _done self;
                         transport := transport self |}) ;;;
  let* self := get in
  let* frame := lift (split_frame (_buffer self)) in
  match frame with
  | None => ret tt
  | Some (msg_bytes, _) =>
      let* msg := lift (bytes_to_dict msg_bytes) in
      modify (fun self => {| _buffer := _buffer self;
                             _done := _done self ++ [Fire msg];
                             transport := transport self |})
  end.

End Methods.

End ControlProtocol.

(** ** The sending loop of [open] *)

(** What a [yield] of [open] is resumed with: a result, or a failure that
    is raised at the [yield]. *)
Inductive answer : Type :=
| Fired
| Failed (failure : string).

(** What [open] does in mode ["tx"], in order, from line 277 on.  [Connect
    i fn] is [client_ep.connect] for the file at index [i] of the
    arguments; [Done i] is the loop resumed after [yield sp.when_done()]
    for that file, which happens when its [SendProtocol] has fired its
    observer with ["ok"]; [ControlSend msg] is [cp.send(msg)]; [Close] is
    [w.close()]. *)
Inductive event : Type :=
| Connect (i : nat) (fn : string)
| Done (i : nat)
| Raised (e : string)
| ControlSend (msg : dict)
| Close.

(** The loop [for fn in options.args], at index [i], given what the
    successive [yield]s are resumed with: the events, and whether the loop
    ran to its end.  With no answer left the generator stays suspended at
    the [yield]. *)
Fixpoint send_files (isfile : string -> bool) (i : nat) (args : list string)
    (answers : list answer) : list event * bool :=
  match args with
  | [] => ([], true)
  | fn :: args' =>
      if negb (isfile fn) then ([Raised "AssertionError"%string], false)
      else
        match answers with
        | [] => ([Connect i fn], false)
        | Failed f :: _ => ([Connect i fn; Raised f], false)
        | Fired :: answers' =>
            let (evs, finished) := send_files isfile (S i) args' answers' in
            (Connect i fn :: Done i :: evs, finished)
        end
  end.

Definition done_msg : dict := {[ "done" := PyStr "done" ]}.

(** [open] in mode ["tx"] from line 276 on: the loop, then the control
    message and [w.close()]. *)
Definition open_tx (isfile : string -> bool) (args : list string)
    (answers : list answer) : list event :=
  let (evs, finished) := send_files isfile 0 args answers in
  if finished then evs ++ [ControlSend done_msg; Close] else evs.

(** ** Collaborators for concrete runs

    A serialiser that writes a flat message as JSON text, a decoder that
    knows the messages of the runs below, and a digest that knows their
    payloads. *)

#[global] Instance byte_eq_decision : EqDecision byte := Byte.byte_eq_dec.

Definition utf8 (s : string) : bytes := list_byte_of_string s.

Definition quoted (s : string) : bytes := [x22] ++ utf8 s ++ [x22].

Definition json_value (v : pyval) : bytes :=
  match v with
  | PyStr s => quoted s
  | PyInt z => utf8 (pretty z)
  | PyBool true => utf8 "true"
  | PyBool false => utf8 "false"
  | _ => utf8 "null"
  end.

Fixpoint json_items (items : list (string * pyval)) : bytes :=
  match items with
  | [] => []
  | (k, v) :: rest =>
      quoted k ++ utf8 ": " ++ json_value v
        ++ match rest with [] => [] | _ => utf8 ", " ++ json_items rest end
  end.

Definition json_dumps (d : dict) : bytes :=
  utf8 "{" ++ json_items (map_to_list d) ++ utf8 "}".

Definition sha256_of_empty : string :=
  "e3b0c44298fc1c149afbf4c8996fb92427ae41e4649b934ca495991b7852b855".
Definition sha256_of_010203 : string :=
  "039058c6f2c0cb492c533b0a4d14ef77cc0f78abccced5287d84a1a2011cfb81".

Definition sample_sha256 (data : bytes) : string :=
  if bool_decide (data = []) then sha256_of_empty
  else if bool_decide (data = [x01; x02; x03]) then sha256_of_010203
  else "not in the table".

Definition file_header (name : string) (size : Z) : dict :=
  {[ "type" := PyStr "file"; "size" := PyInt size; "name" := PyStr name ]}.

Definition ok_ack (hexdigest : string) : dict :=
  {[ "ack" := PyStr "ok"; "sha256" := PyStr hexdigest ]}.

(** An ack that says ok and carries no digest. *)
Definition ack_without_digest : dict := {[ "ack" := PyStr "ok" ]}.

Definition sample_messages : list dict :=
  [ file_header "a.bin" 3; file_header "empty.bin" 0; file_header "a.bin" (-1);
    ok_ack sha256_of_010203; ok_ack sha256_of_empty; done_msg;
    ack_without_digest ].

Definition sample_bytes_to_dict (b : bytes) : result dict :=
  match List.find (fun d => bool_decide (json_dumps d = b)) sample_messages with
  | Some d => Ok d
  | None => Raise (LibraryError "JSONDecodeError")
  end.

Definition sample : Collaborators :=
  {| dict_to_bytes := json_dumps;
     bytes_to_dict := sample_bytes_to_dict;
     sha256_hexdigest := sample_sha256;
     downloads_child := fun name => Ok ("/home/user/Downloads/" +:+ name)%string |}.

(** An empty downloads directory. *)
Definition no_files : ReceiverFactory.t := {| ReceiverFactory.existing := ∅ |}.


(** ** Vocabulary of the statements *)

(** The state of a [Receiver] after the four updates at the top of
    [write]. *)
Definition written_to (data : bytes) (self : Receiver.t) : Receiver.t :=
  {| Receiver.fd :=
       {| written := written (Receiver.fd self) ++ data; closed := false |};
     Receiver.remaining := Receiver.remaining self - len data;
     Receiver.hasher := Receiver.hasher self ++ data;
     Receiver.progress := Receiver.progress self + len data |}.

(** The acks among the outcomes of successive calls of [write]. *)
Definition acks (outs : list (result (option dict))) : list dict :=
  omap (fun r => match r with Ok (Some ack) => Some ack | _ => None end) outs.

(** A [Receiver] as [incoming_file] makes it for a declared [size]. *)
Definition new_receiver (size : Z) : Receiver.t :=
  {| Receiver.fd := file_open_wb; Receiver.remaining := size;
     Receiver.hasher := []; Receiver.progress := 0 |}.

(** The byte strings written on a transport, in order. *)
Definition writes (calls : list transport_call) : list bytes :=
  omap (fun c => match c with Twrite data => Some data | TloseConnection => None end)
       calls.

(** What a [SendProtocol] has written after its first write, which is the
    header: the payload it has transmitted. *)
Definition payload_sent (self : SendProtocol.t) : bytes :=
  concat (drop 1 (writes (SendProtocol.transport self))).

(** [isinstance(v, six.integer_types)] *)
Definition is_python_int (v : pyval) : Prop :=
  (exists z, v = PyInt z) \/ (exists b, v = PyBool b).

(** What makes [incoming_file] reject a header in its checks. *)
Definition rejected (header : dict) : Prop :=
  header !! "type"%string <> Some (PyStr "file")
  \/ is_Some (header !! "compression"%string)
  \/ ~ (exists v, header !! "size"%string = Some v /\ is_python_int v).

(** What makes a header invalid in the words of the specification: the
    size has to be a non-negative integer. *)
Definition invalid_by_specification (header : dict) : Prop :=
  header !! "type"%string <> Some (PyStr "file")
  \/ is_Some (header !! "compression"%string)
  \/ ~ (exists z, header !! "size"%string = Some (PyInt z) /\ 0 <= z).

(** The outcomes of [process_ack], one per way of leaving it: the three
    [RuntimeError]s, the [KeyError] of each of the two subscriptions, and
    the call of [fire]. *)
Inductive ack_outcome : Type :=
| PrematureAckError
| MissingAckKey
| AckNotOkError
| MissingDigestKey
| HashMismatchError
| Success.

(** [outcome_is o ack before after]: processing [ack] took the sender
    from [before] to the state and result [after], with outcome [o]. *)
Definition outcome_is (o : ack_outcome) (ack : dict)
    (before : SendProtocol.t) (after : SendProtocol.t * result unit) : Prop :=
  match o with
  | PrematureAckError =>
      SendProtocol._expected_hexhash before = None
      /\ after = (before, Raise (RuntimeError PrematureAck))
  | MissingAckKey =>
      is_Some (SendProtocol._expected_hexhash before)
      /\ ack !! "ack"%string = None
      /\ after = (before, Raise (KeyError "ack"))
  | AckNotOkError =>
      is_Some (SendProtocol._expected_hexhash before)
      /\ (exists a, ack !! "ack"%string = Some a /\ a <> PyStr "ok")
      /\ after = (before, Raise (RuntimeError (AckNotOk ack)))
  | MissingDigestKey =>
      is_Some (SendProtocol._expected_hexhash before)
      /\ ack !! "ack"%string = Some (PyStr "ok")
      /\ ack !! "sha256"%string = None
      /\ after = (before, Raise (KeyError "sha256"))
  | HashMismatchError =>
      exists expected h,
        SendProtocol._expected_hexhash before = Some expected
        /\ ack !! "ack"%string = Some (PyStr "ok")
        /\ ack !! "sha256"%string = Some h
        /\ h <> PyStr expected
        /\ after = (before, Raise (RuntimeError (AckBadHash h expected)))
  | Success =>
      exists expected,
        SendProtocol._expected_hexhash before = Some expected
        /\ ack !! "ack"%string = Some (PyStr "ok")
        /\ ack !! "sha256"%string = Some (PyStr expected)
        /\ after = (SendProtocol.set_done_observer
                      (SendProtocol._done_observer before ++ [Fire "ok"%string])
                      before,
                    Ok tt)
  end.

(** The sender once a complete ack frame is in its buffer, at the call of
    [process_ack]: done, and its connection closed. *)
Definition closing (data : bytes) (self : SendProtocol.t) : SendProtocol.t :=
  SendProtocol.set_transport (SendProtocol.transport self ++ [TloseConnection])
    (SendProtocol.set_done true
       (SendProtocol.set_ack_buffer (SendProtocol._ack_buffer self ++ data) self)).

(** The numbered names of [name] from [count] on all have a path, and no
    two of them the same one. *)
Definition numbered_paths_distinct `{Collaborators} (name : string) (count : Z) : Prop :=
  (forall k, count <= k ->
     exists p, downloads_child (ReceiverFactory.numbered name k) = Ok p)
  /\ (forall j k p, count <= j -> count <= k ->
        downloads_child (ReceiverFactory.numbered name j) = Ok p ->
        downloads_child (ReceiverFactory.numbered name k) = Ok p -> j = k).

(** ** Runs of several calls *)

(** Successive calls of a method that takes the received bytes, one per
    chunk: the final state and the outcome of each call. *)
Fixpoint each {S A} (method : bytes -> M S A) (chunks : list bytes) (self : S)
  : S * list (result A) :=
  match chunks with
  | [] => (self, [])
  | data :: chunks' =>
      let (self', r) := method data self in
      let (self'', rs) := each method chunks' self' in
      (self'', r :: rs)
  end.

(** Successive calls of [ReceiveProtocol.dataReceived]; [None] when one of
    them has not returned within [fuel]. *)
Fixpoint deliver_each `{Collaborators} (fuel : nat) (chunks : list bytes)
    (self : ReceiveProtocol.t) : option (ReceiveProtocol.t * list (result unit)) :=
  match chunks with
  | [] => Some (self, [])
  | data :: chunks' =>
      match ReceiveProtocol.dataReceived fuel data self with
      | None => None
      | Some (self', r) =>
          match deliver_each fuel chunks' self' with
          | None => None
          | Some (self'', rs) => Some (self'', r :: rs)
          end
      end
  end.

(** What can happen to a [SendProtocol]: its connection is made, the
    transport pulls on its [FileSender], data arrives, the connection is
    lost. *)
Inductive sender_event : Type :=
| Made
| Pulled
| Received (data : bytes)
| Lost.

Definition sender_step `{Collaborators} (ev : sender_event) : M SendProtocol.t unit :=
  match ev with
  | Made => SendProtocol.connectionMade
  | Pulled => SendProtocol.resumeProducing
  | Received data => SendProtocol.dataReceived data
  | Lost => SendProtocol.connectionLost
  end.

(** The state after a sequence of events, whatever each call returned. *)
Fixpoint sender_run `{Collaborators} (events : list sender_event)
    (self : SendProtocol.t) : SendProtocol.t :=
  match events with
  | [] => self
  | ev :: events' => sender_run events' (fst (sender_step ev self))
  end.

(** The calls [fire(...)] among the calls made on an observer. *)
Definition fired {A} (calls : list (observer_call A)) : list A :=
  omap (fun c => match c with Fire v => Some v | Error _ => None end) calls.

(** The files [open] has connected for, in order. *)
Definition connected (trace : list event) : list string :=
  omap (fun e => match e with Connect _ fn => Some fn | _ => None end) trace.

(** [a.bin] arrives in a directory that has an [a.bin] and an
    [a.bin (1)]. *)
Definition crowded : ReceiverFactory.t :=
  {| ReceiverFactory.existing :=
       {[ "/home/user/Downloads/a.bin"%string;
          "/home/user/Downloads/a.bin (1)"%string ]} |}.

(** ** Properties of the codec *)

Lemma Z_of_byte_range (b : byte) : 0 <= Z_of_byte b < 256.
Proof.
  unfold Z_of_byte. pose proof (Byte.to_N_bounded b) as Hb.
  split; [apply N2Z.is_nonneg|].
  apply N.lt_succ_r in Hb. change (N.succ 255) with 256%N in Hb. lia.
Qed.

Lemma Z_of_byte_of_Z (z : Z) : Z_of_byte (byte_of_Z z) = z mod 256.
Proof.
  unfold byte_of_Z, Z_of_byte.
  pose proof (Z.mod_pos_bound z 256 ltac:(lia)) as Hm.
  destruct (Byte.of_N (Z.to_N (z mod 256))) as [b|] eqn:E.
  - apply Byte.to_of_N in E. rewrite E. lia.
  - apply Byte.of_N_None_iff in E. lia.
Qed.

Lemma byte_of_Z_of_byte (b : byte) : byte_of_Z (Z_of_byte b) = b.
Proof.
  unfold byte_of_Z. pose proof (Z_of_byte_range b) as Hb.
  rewrite Z.mod_small by exact Hb.
  unfold Z_of_byte. rewrite N2Z.id, Byte.of_to_N. reflexivity.
Qed.

Lemma byte_of_Z_mod (z : Z) : byte_of_Z (z mod 256) = byte_of_Z z.
Proof. unfold byte_of_Z. rewrite Z.mod_mod by lia. reflexivity. Qed.

Lemma length_be_pack (n : nat) (v : Z) : length (be_pack n v) = n.
Proof.
  revert v. induction n as [|n IH]; intros v; simpl; [reflexivity|].
  rewrite length_app, IH. simpl. lia.
Qed.

Lemma be_unpack_snoc (l : bytes) (x : byte) :
  be_unpack (l ++ [x]) = be_unpack l * 256 + Z_of_byte x.
Proof. unfold be_unpack. rewrite fold_left_app. reflexivity. Qed.

Lemma be_unpack_pack (n : nat) (v : Z) :
  be_unpack (be_pack n v) = v mod 256 ^ Z.of_nat n.
Proof.
  revert v. induction n as [|n IH]; intros v.
  - simpl. rewrite Z.mod_1_r. reflexivity.
  - cbn [be_pack]. rewrite be_unpack_snoc, IH, Z_of_byte_of_Z.
    rewrite Nat2Z.inj_succ, Z.pow_succ_r by lia.
    assert (0 < 256 ^ Z.of_nat n) as Hp by (apply Z.pow_pos_nonneg; lia).
    rewrite Z.rem_mul_r by lia. lia.
Qed.

Lemma be_unpack_range (l : bytes) : 0 <= be_unpack l < 256 ^ Z.of_nat (length l).
Proof.
  induction l as [|x l IH] using rev_ind.
  - cbn. lia.
  - rewrite be_unpack_snoc, length_app. cbn [length].
    replace (Z.of_nat (length l + 1)) with (Z.succ (Z.of_nat (length l))) by lia.
    rewrite Z.pow_succ_r by lia.
    pose proof (Z_of_byte_range x). lia.
Qed.

Lemma be_pack_unpack (l : bytes) : be_pack (length l) (be_unpack l) = l.
Proof.
  induction l as [|x l IH] using rev_ind; [reflexivity|].
  rewrite length_app, be_unpack_snoc. cbn [length].
  replace (length l + 1)%nat with (S (length l)) by lia.
  cbn [be_pack]. pose proof (Z_of_byte_range x) as Hx.
  replace ((be_unpack l * 256 + Z_of_byte x) / 256) with (be_unpack l).
  2:{ rewrite Z.div_add_l by lia. rewrite Z.div_small by lia. lia. }
  rewrite IH. f_equal. f_equal.
  rewrite <- byte_of_Z_mod.
  rewrite Z.add_comm, Z.mod_add by lia.
  rewrite Z.mod_small by lia. apply byte_of_Z_of_byte.
Qed.

Lemma to_be8_ok (v : Z) :
  0 <= v < 2 ^ 64 -> to_be8 v = Ok (be_pack 8 v).
Proof.
  intros [H0 H1]. unfold to_be8.
  apply Z.leb_le in H0. apply Z.ltb_lt in H1. rewrite H0, H1. reflexivity.
Qed.

Lemma to_be8_inv (v : Z) (b : bytes) :
  to_be8 v = Ok b -> 0 <= v < 2 ^ 64 /\ b = be_pack 8 v.
Proof.
  unfold to_be8.
  destruct (0 <=? v) eqn:H0; destruct (v <? 2 ^ 64) eqn:H1; cbn; try discriminate.
  intros [= <-]. apply Z.leb_le in H0. apply Z.ltb_lt in H1. auto.
Qed.

Lemma from_be8_pack (v : Z) :
  0 <= v < 2 ^ 64 -> from_be8 (PyBytes (be_pack 8 v)) = Ok v.
Proof.
  intros Hv. unfold from_be8. rewrite length_be_pack. cbn [Nat.eqb negb].
  rewrite be_unpack_pack. f_equal. apply Z.mod_small.
  change (256 ^ Z.of_nat 8) with (2 ^ 64). exact Hv.
Qed.

(** C10. The 8-byte length codec is a partial bijection.  [to_be8 v]
    returns exactly when [0 <= v < 2^64], and then [from_be8] gives [v]
    back from the 8 bytes; [from_be8 x] returns exactly when [x] is a byte
    string of length 8, its result is in range and [to_be8] maps it back to
    [x]; every other integer makes [to_be8] raise [ValueError], and every
    other object makes [from_be8] raise. *)
Theorem be8_partial_bijection :
  (forall v : Z,
      match to_be8 v with
      | Ok b => 0 <= v < 2 ^ 64 /\ length b = 8%nat /\ from_be8 (PyBytes b) = Ok v
      | Raise e => ~ (0 <= v < 2 ^ 64) /\ e = ValueError
      end)
  /\ (forall x : pyval,
      match from_be8 x with
      | Ok v => exists b, x = PyBytes b /\ length b = 8%nat
                          /\ 0 <= v < 2 ^ 64 /\ to_be8 v = Ok b
      | Raise e => ~ (exists b, x = PyBytes b /\ length b = 8%nat)
      end).
Proof.
  split.
  - intros v. destruct (to_be8 v) as [b|e] eqn:E.
    + apply to_be8_inv in E as [Hv ->].
      rewrite length_be_pack, from_be8_pack by exact Hv. auto.
    + unfold to_be8 in E.
      destruct (0 <=? v) eqn:H0; destruct (v <? 2 ^ 64) eqn:H1; cbn in E;
        try discriminate; injection E as <-; split; try reflexivity;
        try (apply Z.leb_gt in H0); try (apply Z.ltb_ge in H1); lia.
  - intros x. destruct x; cbn; try (intros (b' & Hb & _); discriminate).
    destruct (Nat.eqb (length b) 8) eqn:El; cbn.
    + apply Nat.eqb_eq in El. exists b.
      pose proof (be_unpack_range b) as Hr. rewrite El in Hr.
      change (256 ^ Z.of_nat 8) with (2 ^ 64) in Hr.
      repeat split; try lia.
      rewrite to_be8_ok by exact Hr. rewrite <- El at 1.
      rewrite be_pack_unpack. reflexivity.
    + apply Nat.eqb_neq in El. intros (b' & [= <-] & Hl). contradiction.
Qed.

(** ** Framing *)

Lemma len_app {A} (a b : list A) : len (a ++ b) = len a + len b.
Proof. unfold len. rewrite length_app. lia. Qed.

Lemma len_nonneg {A} (a : list A) : 0 <= len a.
Proof. unfold len. lia. Qed.

Lemma len_be_pack8 (v : Z) : len (be_pack 8 v) = 8.
Proof. unfold len. rewrite length_be_pack. reflexivity. Qed.

Lemma split_frame_short (buffer : bytes) :
  len buffer < 8 -> split_frame buffer = Ok None.
Proof.
  intros Hlt. unfold split_frame.
  apply Z.ltb_lt in Hlt. rewrite Hlt. reflexivity.
Qed.

(** A buffer that starts with the prefix of a frame of [n] bytes but holds
    fewer than [8 + n] bytes gives no frame. *)
Lemma split_frame_partial (n : Z) (tail : bytes) :
  0 <= n < 2 ^ 64 -> len tail < n ->
  split_frame (be_pack 8 n ++ tail) = Ok None.
Proof.
  intros Hn Htail. unfold split_frame.
  rewrite len_app, len_be_pack8.
  pose proof (len_nonneg tail) as Hnn.
  destruct (8 + len tail <? 8) eqn:E; [apply Z.ltb_lt in E; lia|].
  unfold slice. cbn [Z.to_nat Z.sub Z.opp Pos.to_nat Pos.iter_op Nat.add skipn].
  change (Z.to_nat (8 - 0)) with 8%nat. rewrite drop_0.
  rewrite take_app_length' by (rewrite length_be_pack; reflexivity).
  rewrite from_be8_pack by exact Hn.
  destruct (8 + len tail <? 8 + n) eqn:E2; [reflexivity|].
  apply Z.ltb_ge in E2. lia.
Qed.

(** A buffer that holds a whole frame gives its payload and the bytes
    after it. *)
Lemma split_frame_complete (payload rest : bytes) :
  len payload < 2 ^ 64 ->
  split_frame (be_pack 8 (len payload) ++ payload ++ rest) = Ok (Some (payload, rest)).
Proof.
  intros Hn. pose proof (len_nonneg payload) as Hp.
  pose proof (len_nonneg rest) as Hr. unfold split_frame.
  rewrite !len_app, len_be_pack8.
  destruct (8 + (len payload + len rest) <? 8) eqn:E; [apply Z.ltb_lt in E; lia|].
  unfold slice, slice_from.
  change (Z.to_nat 0) with 0%nat. change (Z.to_nat (8 - 0)) with 8%nat.
  rewrite drop_0.
  rewrite take_app_length' by (rewrite length_be_pack; reflexivity).
  rewrite from_be8_pack by lia.
  destruct (8 + (len payload + len rest) <? 8 + len payload) eqn:E2;
    [apply Z.ltb_lt in E2; lia|].
  change (Z.to_nat 8) with 8%nat.
  replace (Z.to_nat (8 + len payload - 8)) with (length payload) by (unfold len; lia).
  replace (Z.to_nat (8 + len payload)) with (8 + length payload)%nat by (unfold len; lia).
  rewrite drop_app_length' by (rewrite length_be_pack; reflexivity).
  rewrite take_app_length.
  rewrite app_assoc. rewrite drop_app_length'; [reflexivity|].
  rewrite length_app, length_be_pack. reflexivity.
Qed.

Lemma delivered_prefix (k : nat) (chunks : list bytes) :
  exists tail, concat chunks = delivered k chunks ++ tail.
Proof.
  exists (concat (skipn k chunks)). unfold delivered.
  rewrite <- concat_app, firstn_skipn. reflexivity.
Qed.

(** A prefix of [a ++ b] is a prefix of [a], or [a] followed by a prefix
    of [b]. *)
Lemma prefix_of_app {A} (p tail a b : list A) :
  p ++ tail = a ++ b ->
  (exists a2, a = p ++ a2 /\ (length p < length a)%nat)
  \/ (exists b1 b2, p = a ++ b1 /\ b = b1 ++ b2).
Proof.
  revert a. induction p as [|x p IH]; intros a Heq.
  - destruct a as [|y a].
    + right. exists [], b. auto.
    + left. exists (y :: a). cbn. split; [reflexivity|lia].
  - destruct a as [|y a].
    + right. exists (x :: p), tail. cbn in *. auto.
    + cbn in Heq. injection Heq as -> Heq.
      destruct (IH a Heq) as [(a2 & -> & Hl)|(b1 & b2 & -> & ->)].
      * left. exists a2. cbn. split; [reflexivity|lia].
      * right. exists b1, b2. auto.
Qed.

(** The framing steps on what has been delivered: as long as fewer than
    [8 + N] bytes have been delivered they give no frame, and from then on
    exactly the payload, with the bytes delivered past the frame. *)
Lemma split_frame_delivered (payload extra : bytes) (chunks : list bytes)
    (prefix : bytes) (k : nat) :
  to_be8 (len payload) = Ok prefix ->
  concat chunks = prefix ++ payload ++ extra ->
  let buffer := delivered k chunks in
  (len buffer < 8 + len payload -> split_frame buffer = Ok None)
  /\ (8 + len payload <= len buffer ->
      exists rest, buffer = prefix ++ payload ++ rest
                   /\ split_frame buffer = Ok (Some (payload, rest))).
Proof.
  intros Hprefix Hstream buffer.
  apply to_be8_inv in Hprefix as [Hn ->].
  destruct (delivered_prefix k chunks) as [tail Htail].
  fold buffer in Htail. rewrite Hstream in Htail. symmetry in Htail.
  pose proof (len_nonneg buffer) as Hb.
  destruct (prefix_of_app _ _ _ _ Htail) as [(a2 & Ha & Hl)|(b1 & b2 & Hb1 & Hb2)].
  - (* inside the length prefix *)
    assert (len buffer < 8) as Hshort.
    { unfold len. rewrite length_be_pack in Hl. lia. }
    split; [intros _; apply split_frame_short; exact Hshort|lia].
  - symmetry in Hb2.
    destruct (prefix_of_app _ _ _ _ Hb2) as [(p2 & Hp & Hl)|(r1 & r2 & Hr1 & Hr2)].
    + (* inside the payload *)
      assert (len b1 < len payload) as Hlt by (unfold len; lia).
      rewrite Hb1. split.
      * intros _. apply split_frame_partial; [exact Hn|exact Hlt].
      * rewrite len_app, len_be_pack8. lia.
    + (* the whole frame and [r1] more *)
      rewrite Hb1, Hr1. split.
      * rewrite !len_app, len_be_pack8. pose proof (len_nonneg r1). lia.
      * intros _. exists r1. split; [reflexivity|].
        apply split_frame_complete. lia.
Qed.


(** ** Receiver *)

Ltac run_m :=
  unfold bind, ret, raise, lift, get, modify, within; cbn.

Section ReceiverFacts.
Context `{Collaborators}.
Import Receiver.

Lemma write_open (data : bytes) (self : t) :
  closed (fd self) = false ->
  write data self =
    if remaining self - len data =? 0 then
      (set_fd (file_close (fd (written_to data self))) (written_to data self),
       Ok (Some (ok_ack (sha256_hexdigest (hasher self ++ data)))))
    else if remaining self - len data <? 0 then
      (written_to data self, Raise (RuntimeError ReceiverOverflow))
    else (written_to data self, Ok None).
Proof.
  intros Hopen. unfold write, finish, file_write. run_m. rewrite Hopen.
  destruct (remaining self - len data =? 0) eqn:E0; [reflexivity|].
  destruct (remaining self - len data <? 0) eqn:E1; reflexivity.
Qed.

Lemma write_closed (data : bytes) (self : t) :
  closed (fd self) = true ->
  write data self = (set_hasher (hasher self ++ data) self, Raise ValueError).
Proof.
  intros Hclosed. unfold write, file_write. run_m. rewrite Hclosed.
  reflexivity.
Qed.

End ReceiverFacts.

Section Overflow.
Context `{Collaborators}.
Import Receiver.

(** While the chunks stay short of what remains, each call returns
    [None] and everything is written. *)
Lemma write_each_short (chunks : list bytes) (self : t) :
  closed (fd self) = false ->
  len (concat chunks) < remaining self ->
  let (mid, outs) := write_each chunks self in
  outs = repeat (Ok None) (length chunks)
  /\ closed (fd mid) = false
  /\ remaining mid = remaining self - len (concat chunks)
  /\ written (fd mid) = written (fd self) ++ concat chunks
  /\ hasher mid = hasher self ++ concat chunks.
Proof.
  revert self. induction chunks as [|c chunks IH]; intros self Hopen Hlt.
  - cbn. rewrite !app_nil_r. repeat split; try reflexivity; try assumption.
    unfold len; cbn; lia.
  - cbn [write_each concat] in *. rewrite len_app in Hlt.
    pose proof (len_nonneg c) as Hc.
    pose proof (len_nonneg (concat chunks)) as Hcs.
    rewrite write_open by exact Hopen.
    destruct (remaining self - len c =? 0) eqn:E0; [apply Z.eqb_eq in E0; lia|].
    destruct (remaining self - len c <? 0) eqn:E1; [apply Z.ltb_lt in E1; lia|].
    specialize (IH (written_to c self) eq_refl).
    cbn [written_to remaining] in IH. specialize (IH ltac:(lia)).
    destruct (write_each chunks (written_to c self)) as [mid outs].
    destruct IH as (-> & Hcl & Hrem & Hwr & Hha).
    cbn [written_to fd hasher written] in Hwr, Hha.
    rewrite Hrem, Hwr, Hha, len_app, <- !app_assoc.
    repeat split; try assumption; try reflexivity. lia.
Qed.

(** Once [remaining] is negative every call writes its chunk and raises
    the overflow error. *)
Lemma write_each_overflowed (chunks : list bytes) (self : t) :
  closed (fd self) = false ->
  remaining self < 0 ->
  let (final, outs) := write_each chunks self in
  outs = repeat (Raise (RuntimeError ReceiverOverflow)) (length chunks)
  /\ closed (fd final) = false
  /\ written (fd final) = written (fd self) ++ concat chunks.
Proof.
  revert self. induction chunks as [|c chunks IH]; intros self Hopen Hneg.
  - cbn. rewrite app_nil_r. auto.
  - cbn [write_each concat]. pose proof (len_nonneg c) as Hc.
    rewrite write_open by exact Hopen.
    destruct (remaining self - len c =? 0) eqn:E0; [apply Z.eqb_eq in E0; lia|].
    destruct (remaining self - len c <? 0) eqn:E1; [|apply Z.ltb_ge in E1; lia].
    specialize (IH (written_to c self) eq_refl).
    cbn [written_to remaining] in IH. specialize (IH ltac:(lia)).
    destruct (write_each chunks (written_to c self)) as [final outs].
    destruct IH as (-> & Hcl & Hwr). cbn [written_to fd written] in Hwr.
    rewrite Hwr, <- app_assoc. auto.
Qed.

Lemma write_each_app (xs ys : list bytes) (self : t) :
  write_each (xs ++ ys) self =
    let (mid, outs1) := write_each xs self in
    let (final, outs2) := write_each ys mid in
    (final, outs1 ++ outs2).
Proof.
  revert self. induction xs as [|x xs IH]; intros self.
  - cbn. destruct (write_each ys self). reflexivity.
  - cbn [write_each app]. destruct (write x self) as [self' r].
    rewrite IH. destruct (write_each xs self') as [mid outs1].
    destruct (write_each ys mid) as [final outs2]. reflexivity.
Qed.

(** C2, as the code has it.  A receiver told [remaining self] bytes is
    delivered [pre], which stays short of that size, then [data], which
    goes past it, then [post].  Every call for [pre] returns [None];
    the call for [data] and every later call raises the overflow error
    after writing its whole chunk to the sink, the excess included; no
    call returns an ack. *)
Theorem overflow_after_writing_chunk (self : t) (pre : list bytes)
    (data : bytes) (post : list bytes) :
  closed (fd self) = false ->
  pre = [] \/ len (concat pre) < remaining self ->
  len (concat pre) <= remaining self < len (concat pre) + len data ->
  let (final, outs) := write_each (pre ++ data :: post) self in
  outs = repeat (Ok None) (length pre)
           ++ repeat (Raise (RuntimeError ReceiverOverflow)) (S (length post))
  /\ acks outs = []
  /\ written (fd final) = written (fd self) ++ concat pre ++ data ++ concat post.
Proof.
  intros Hopen Hpre Hcross.
  assert (let (mid, outs) := write_each pre self in
          outs = repeat (Ok None) (length pre)
          /\ closed (fd mid) = false
          /\ remaining mid = remaining self - len (concat pre)
          /\ written (fd mid) = written (fd self) ++ concat pre) as Hmid.
  { destruct Hpre as [-> | Hlt].
    - cbn. rewrite app_nil_r. repeat split; try assumption.
      unfold len; cbn; lia.
    - pose proof (write_each_short pre self Hopen Hlt) as Hs.
      destruct (write_each pre self) as [mid outs]. tauto. }
  rewrite write_each_app.
  destruct (write_each pre self) as [mid outs1].
  destruct Hmid as (-> & Hcl & Hrem & Hwr).
  pose proof (write_each_overflowed (data :: post) mid Hcl) as Hov.
  cbn [write_each] in *. rewrite write_open in * by exact Hcl.
  destruct (remaining mid - len data =? 0) eqn:E0; [apply Z.eqb_eq in E0; lia|].
  destruct (remaining mid - len data <? 0) eqn:E1; [|apply Z.ltb_ge in E1; lia].
  pose proof (write_each_overflowed post (written_to data mid) eq_refl) as Hpost.
  cbn [written_to remaining] in Hpost. specialize (Hpost ltac:(lia)).
  destruct (write_each post (written_to data mid)) as [final outs2].
  destruct Hpost as (-> & _ & Hwr2). cbn [written_to fd written] in Hwr2.
  split; [reflexivity|]. split.
  - unfold acks. clear. induction pre as [|? ? IH]; cbn.
    + induction post as [|? ? IH]; cbn; [reflexivity|exact IH].
    + exact IH.
  - rewrite Hwr2, Hwr, <- !app_assoc. reflexivity.
Qed.

End Overflow.

(** The receiver is told one byte and is handed a chunk of two. *)
Lemma overflow_after_writing_chunk_witness :
  let (final, outs) :=
    @Receiver.write_each sample ([] ++ [x01; x02] :: []) (new_receiver 1) in
  outs = repeat (Ok None) (length (@nil bytes))
           ++ repeat (Raise (RuntimeError ReceiverOverflow)) (S (length (@nil bytes)))
  /\ acks outs = []
  /\ written (Receiver.fd final)
     = written (Receiver.fd (new_receiver 1)) ++ concat [] ++ [x01; x02] ++ concat [].
Proof.
  apply (@overflow_after_writing_chunk sample (new_receiver 1) [] [x01; x02] []);
    [reflexivity | left; reflexivity | unfold len; cbn; lia].
Defined.

(** When a delivery ends exactly at the declared size the ack is returned
    there, and a later chunk finds the file closed. *)
Lemma ack_when_delivery_ends_at_size :
  snd (@Receiver.write_each sample [[x01; x02]; [x03]] (new_receiver 2))
  = [Ok (Some (ok_ack (sample_sha256 [x01; x02]))); Raise ValueError].
Proof. reflexivity. Qed.

(** C2 as stated fails: told one byte and handed two, [write] raises the
    overflow error only after both bytes are in the sink. *)
Lemma overflow_excess_is_written :
  let (after, out) := @Receiver.write sample [x01; x02] (new_receiver 1) in
  out = Raise (RuntimeError ReceiverOverflow)
  /\ written (Receiver.fd after) = [x01; x02]
  /\ ~ (len (written (Receiver.fd after)) <= 1).
Proof. vm_compute. repeat split; try reflexivity. intros Hle. apply Hle. reflexivity. Qed.

(** ** Digests *)

Section Exact.
Context `{Collaborators}.
Import Receiver.

Lemma concat_nil_length (chunks : list bytes) :
  len (concat chunks) = 0 -> concat chunks = [] /\ Forall (fun c => c = []) chunks.
Proof.
  induction chunks as [|c chunks IH]; cbn; intros Hl; [auto|].
  rewrite len_app in Hl.
  pose proof (len_nonneg c). pose proof (len_nonneg (concat chunks)).
  destruct c; [|unfold len in *; cbn in *; lia].
  destruct (IH ltac:(lia)) as [-> Hall]. auto.
Qed.

(** After the file is closed every call raises, and an empty chunk leaves
    the hasher as it is. *)
Lemma write_each_closed (chunks : list bytes) (self : t) :
  closed (fd self) = true ->
  Forall (fun c => c = []) chunks ->
  let (final, outs) := write_each chunks self in
  acks outs = [] /\ final = self.
Proof.
  revert self. induction chunks as [|c chunks IH]; intros self Hcl Hall.
  - cbn. auto.
  - inversion Hall as [|? ? -> Hall']; subst. cbn [write_each].
    rewrite write_closed by exact Hcl. rewrite app_nil_r.
    replace (set_hasher (hasher self) self) with self by (destruct self; reflexivity).
    specialize (IH self Hcl Hall').
    destruct (write_each chunks self) as [final outs]. exact IH.
Qed.

(** A receiver that is delivered exactly what remains, in any chunks,
    answers once, with the digest of all it was given. *)
Lemma write_each_exact (chunks : list bytes) (self : t) :
  closed (fd self) = false ->
  chunks <> [] ->
  remaining self = len (concat chunks) ->
  let (final, outs) := write_each chunks self in
  acks outs = [ok_ack (sha256_hexdigest (hasher self ++ concat chunks))]
  /\ hasher final = hasher self ++ concat chunks
  /\ written (fd final) = written (fd self) ++ concat chunks
  /\ closed (fd final) = true
  /\ remaining final = 0.
Proof.
  revert self. induction chunks as [|c chunks IH]; intros self Hopen Hne Hrem;
    [contradiction|].
  cbn [write_each concat] in *. rewrite len_app in Hrem.
  pose proof (len_nonneg c) as Hc.
  pose proof (len_nonneg (concat chunks)) as Hcs.
  rewrite write_open by exact Hopen.
  destruct (remaining self - len c =? 0) eqn:E0.
  - apply Z.eqb_eq in E0.
    destruct (concat_nil_length chunks ltac:(lia)) as [Hnil Hall].
    pose proof (write_each_closed chunks
                  (set_fd (file_close (fd (written_to c self))) (written_to c self))
                  eq_refl Hall) as Hrest.
    destruct (write_each chunks _) as [final outs].
    destruct Hrest as [Hacks ->]. rewrite Hnil, !app_nil_r.
    cbn. unfold acks in Hacks |- *. cbn. rewrite Hacks.
    repeat split; try reflexivity. lia.
  - apply Z.eqb_neq in E0.
    destruct (remaining self - len c <? 0) eqn:E1; [apply Z.ltb_lt in E1; lia|].
    assert (chunks <> []) as Hne' by (intros ->; unfold len in *; cbn in *; lia).
    specialize (IH (written_to c self) eq_refl Hne').
    cbn [written_to remaining] in IH. specialize (IH ltac:(lia)).
    destruct (write_each chunks (written_to c self)) as [final outs].
    destruct IH as (Hacks & Hha & Hwr & Hcl & Hz).
    cbn [written_to fd hasher written] in Hacks, Hha, Hwr.
    rewrite <- !app_assoc in *.
    unfold acks in *. cbn. auto.
Qed.

End Exact.

Arguments CHUNK_SIZE : simpl never.

Lemma CHUNK_SIZE_pos : (0 < CHUNK_SIZE)%nat.
Proof. unfold CHUNK_SIZE. apply Nat.neq_0_lt_0, Nat.pow_nonzero. discriminate. Qed.

Section Sender.
Context `{Collaborators}.
Import SendProtocol.

Lemma pull_idle (n : nat) (self : t) :
  producing self = false -> pull n self = self.
Proof.
  intros Hidle. induction n as [|n IH]; [reflexivity|].
  cbn [pull]. unfold resumeProducing. run_m. rewrite Hidle. cbn. exact IH.
Qed.

(** What [n] pulls do to a sender that is producing: they write chunks of
    the file and hash the same chunks; once the file is exhausted the
    expected digest is that of everything hashed. *)
Lemma pull_producing (n : nat) (self : t) :
  producing self = true ->
  let self' := pull n self in
  exists chunks : list bytes,
    transport self' = transport self ++ map Twrite chunks
    /\ hasher self' = hasher self ++ concat chunks
    /\ _fd self = concat chunks ++ _fd self'
    /\ _done_observer self' = _done_observer self
    /\ _done self' = _done self
    /\ ((length (_fd self) < n)%nat ->
        _fd self' = []
        /\ _expected_hexhash self' = Some (sha256_hexdigest (hasher self ++ _fd self))).
Proof.
  revert self. induction n as [|n IH]; intros self Hprod.
  - exists []. cbn. rewrite !app_nil_r.
    do 5 (split; [reflexivity|]). intros Hlen. lia.
  - cbn [pull]. unfold resumeProducing at 1. run_m. rewrite Hprod.
    destruct (firstn CHUNK_SIZE (_fd self)) as [|b chunk] eqn:Echunk.
    + (* end of file *)
      assert (_fd self = []) as Hnil.
      { pose proof CHUNK_SIZE_pos. destruct (_fd self); [reflexivity|].
        destruct CHUNK_SIZE; [lia|discriminate]. }
      unfold _count_and_hash, transport_write. run_m.
      rewrite pull_idle by reflexivity.
      exists []. cbn. rewrite Hnil, !app_nil_r, drop_nil.
      do 5 (split; [reflexivity|]). intros _. split; reflexivity.
    + unfold _count_and_hash, transport_write. run_m.
      match goal with |- context [pull n ?s] => specialize (IH s Hprod) end.
      cbn zeta in IH. destruct IH as (chunks & Htr & Hha & Hfd & Hobs & Hdone & Hend).
      cbn [transport hasher _fd _done_observer _done set_fd set_hasher
           set_progress set_transport] in Htr, Hha, Hfd, Hobs, Hdone, Hend.
      exists ((b :: chunk) :: chunks).
      rewrite Htr, Hha, Hobs, Hdone. cbn [map concat].
      rewrite <- !app_assoc. cbn [app].
      assert (_fd self = (b :: chunk) ++ drop CHUNK_SIZE (_fd self)) as Hsplit.
      { rewrite <- Echunk. symmetry. apply take_drop. }
      do 2 (split; [reflexivity|]). split.
      { rewrite Hsplit at 1. rewrite Hfd at 1. reflexivity. }
      do 2 (split; [reflexivity|]). intros Hlen.
      assert (length (drop CHUNK_SIZE (_fd self)) < n)%nat as Hlen'.
      { rewrite Hsplit in Hlen. rewrite length_app in Hlen. cbn in Hlen. lia. }
      destruct (Hend Hlen') as [Hnil ->]. split; [exact Hnil|].
      rewrite Hsplit at 2. rewrite <- ?app_assoc. reflexivity.
Qed.

End Sender.

Lemma writes_app (xs ys : list transport_call) :
  writes (xs ++ ys) = writes xs ++ writes ys.
Proof. unfold writes. apply omap_app. Qed.

Lemma writes_map_Twrite (chunks : list bytes) : writes (map Twrite chunks) = chunks.
Proof.
  induction chunks as [|c chunks IH]; [reflexivity|].
  cbn. unfold writes in IH. rewrite IH. reflexivity.
Qed.

Lemma ok_ack_ack (digest : string) : ok_ack digest !! "ack"%string = Some (PyStr "ok").
Proof. reflexivity. Qed.

Lemma ok_ack_sha256 (digest : string) :
  ok_ack digest !! "sha256"%string = Some (PyStr digest).
Proof. reflexivity. Qed.

Section Agreement.
Context `{Collaborators}.

(** The sender after [connectionMade] and enough pulls to reach the end
    of the file. *)
Lemma sender_at_end_of_file (content : bytes) (header : dict) (size : Z) (n : nat) :
  (length content < n)%nat ->
  let sender := SendProtocol.pull n
                  (fst (SendProtocol.connectionMade
                          (SendProtocol.init content header size))) in
  payload_sent sender = content
  /\ SendProtocol.hasher sender = content
  /\ SendProtocol._expected_hexhash sender = Some (sha256_hexdigest content)
  /\ SendProtocol._done_observer sender = []
  /\ hd_error (SendProtocol.transport sender) = Some (Twrite (dict_to_bytes header)).
Proof.
  intros Hn sender.
  pose proof (pull_producing n
                (fst (SendProtocol.connectionMade
                        (SendProtocol.init content header size))) eq_refl) as Hp.
  cbn zeta in Hp. fold sender in Hp.
  destruct Hp as (chunks & Htr & Hha & Hfd & Hobs & _ & Hend).
  cbn in Htr, Hha, Hfd, Hobs, Hend.
  destruct (Hend Hn) as [Hnil Hexp]. rewrite Hnil, app_nil_r in Hfd.
  unfold payload_sent. rewrite Htr. cbn. rewrite writes_map_Twrite.
  rewrite Hha, Hexp, Hobs, <- Hfd. auto.
Qed.

(** C5. The receiver is told the size of the file and is given, in any
    chunks, exactly the payload bytes the sender has written.  Then the
    digest the sender expects, which covers exactly the bytes it has
    written, the digest of what the receiver has hashed and the digest in
    the one ack the receiver returns are the same, and [process_ack]
    accepts that ack and fires the observer with ["ok"]. *)
Theorem digest_agreement (content : bytes) (header : dict) (size : Z)
    (n : nat) (chunks : list bytes) :
  let sender := SendProtocol.pull n
                  (fst (SendProtocol.connectionMade
                          (SendProtocol.init content header size))) in
  (length content < n)%nat ->
  chunks <> [] ->
  concat chunks = payload_sent sender ->
  let (receiver, outs) := Receiver.write_each chunks (new_receiver (len content)) in
  exists digest : string,
    SendProtocol._expected_hexhash sender = Some digest
    /\ digest = sha256_hexdigest (SendProtocol.hasher sender)
    /\ SendProtocol.hasher sender = payload_sent sender
    /\ sha256_hexdigest (Receiver.hasher receiver) = digest
    /\ acks outs = [ok_ack digest]
    /\ SendProtocol.process_ack (ok_ack digest) sender
       = (SendProtocol.set_done_observer [Fire "ok"%string] sender, Ok tt).
Proof.
  intros sender Hn Hne Hsame.
  destruct (sender_at_end_of_file content header size n Hn)
    as (Hpay & Hha & Hexp & Hobs & _).
  fold sender in Hpay, Hha, Hexp, Hobs.
  rewrite Hpay in Hsame.
  pose proof (write_each_exact chunks (new_receiver (len content)) eq_refl Hne) as Hr.
  cbn [new_receiver Receiver.remaining] in Hr. rewrite Hsame in Hr.
  specialize (Hr eq_refl).
  destruct (Receiver.write_each chunks (new_receiver (len content))) as [receiver outs].
  destruct Hr as (Hacks & Hrh & _). cbn in Hacks, Hrh.
  exists (sha256_hexdigest content).
  rewrite Hha, Hpay, Hrh, Hacks.
  do 5 (split; [reflexivity || assumption|]).
  unfold SendProtocol.process_ack, SendProtocol.observe. run_m.
  rewrite Hexp. unfold getitem. rewrite ok_ack_ack, ok_ack_sha256. cbn.
  rewrite String.eqb_refl. cbn. rewrite Hobs. reflexivity.
Qed.

End Agreement.

(** The file of three bytes [01 02 03], received as one byte and then two. *)
Lemma digest_agreement_witness :
  let sender := @SendProtocol.pull sample 4
                  (fst (@SendProtocol.connectionMade sample
                          (SendProtocol.init [x01; x02; x03] (file_header "a.bin" 3) 3))) in
  exists digest : string,
    SendProtocol._expected_hexhash sender = Some digest
    /\ acks (snd (@Receiver.write_each sample [[x01]; [x02; x03]] (new_receiver 3)))
       = [ok_ack digest].
Proof.
  intros sender.
  pose proof (@digest_agreement sample [x01; x02; x03] (file_header "a.bin" 3) 3 4
                [[x01]; [x02; x03]]) as Hthm.
  cbn zeta in Hthm. fold sender in Hthm.
  specialize (Hthm ltac:(cbn; lia) ltac:(discriminate) ltac:(vm_compute; reflexivity)).
  change (len [x01; x02; x03]) with 3 in Hthm.
  destruct (@Receiver.write_each sample [[x01]; [x02; x03]] (new_receiver 3))
    as [receiver outs].
  destruct Hthm as (digest & Hexp & _ & _ & _ & Hacks & _).
  exists digest. split; [exact Hexp|exact Hacks].
Defined.

(** ** ReceiverFactory and ReceiveProtocol *)

Lemma ok_ack_truthy (digest : string) : truthy (Some (ok_ack digest)) = true.
Proof.
  unfold truthy. apply negb_true_iff, bool_decide_eq_false. intros Hempty.
  pose proof (ok_ack_ack digest) as Hl. rewrite Hempty, lookup_empty in Hl.
  discriminate.
Qed.

Section ReceiveFacts.
Context `{Collaborators}.
Import ReceiverFactory ReceiveProtocol.

Lemma check_header_size (header : dict) (n : Z) :
  check_header header = Ok n ->
  exists v, header !! "size"%string = Some v /\ as_integer v = Some n.
Proof.
  unfold check_header, getitem.
  destruct (header !! "type"%string) as [ty|]; [|discriminate].
  destruct (negb (eq_str ty "file")); [discriminate|].
  destruct (header !! "compression"%string); [discriminate|].
  destruct (header !! "size"%string) as [v|]; [|discriminate].
  destruct (as_integer v) as [m|] eqn:E; [|discriminate].
  intros [= ->]. exists v. auto.
Qed.

(** A receiver that [incoming_file] returns is new, with the size the
    header declares as what remains. *)
Lemma incoming_file_returns (fuel : nat) (header : dict) (fac fac' : ReceiverFactory.t)
    (receiver : Receiver.t) :
  incoming_file fuel header fac = Some (fac', Ok receiver) ->
  exists n, check_header header = Ok n /\ receiver = new_receiver n.
Proof.
  unfold incoming_file.
  destruct (check_header header) as [n|e]; [|intros [= _ ?]; discriminate].
  destruct (getitem header "name") as [v|e]; [|intros [=]].
  destruct v; try (intros [=]; fail).
  destruct (downloads_child s) as [target|e]; [|intros [=]].
  destruct (free_target fuel s 1 target fac) as [[target'|e]|]; intros [=].
  subst. exists n. auto.
Qed.

(** The call of [dataReceived] that completes the header frame: the
    header is decoded, the factory makes the receiver, and the bytes
    after the frame go to [write]. *)
Lemma dataReceived_completes_header (fuel : nat) (self : ReceiveProtocol.t)
    (buffer data header_bytes rest : bytes) (header : dict)
    (factory' : ReceiverFactory.t) (receiver : Receiver.t) :
  _in_header self = true ->
  _header_buffer self = Some buffer ->
  len header_bytes < 2 ^ 64 ->
  buffer ++ data = be_pack 8 (len header_bytes) ++ header_bytes ++ rest ->
  bytes_to_dict header_bytes = Ok header ->
  incoming_file fuel header (factory self) = Some (factory', Ok receiver) ->
  dataReceived fuel data self =
    Some (write_and_reply rest
            {| _in_header := false; _header_buffer := None;
               _receiver := Some receiver; transport := transport self;
               factory := factory' |}).
Proof.
  intros Hin Hbuf Hlen Hframe Hdec Hfac.
  unfold dataReceived, header_phase. rewrite Hin, Hbuf, Hframe.
  rewrite split_frame_complete by exact Hlen.
  rewrite Hdec. cbn [factory set_header_buffer]. rewrite Hfac. reflexivity.
Qed.

(** Lines 74 to 78 in terms of what [Receiver.write] gives. *)
Lemma write_and_reply_eq (data : bytes) (self : ReceiveProtocol.t)
    (receiver : Receiver.t) :
  _receiver self = Some receiver ->
  write_and_reply data self =
    let (receiver', out) := Receiver.write data receiver in
    let self' := set_receiver (Some receiver') self in
    match out with
    | Raise e => (self', Raise e)
    | Ok None => (self', Ok tt)
    | Ok (Some resp_msg) =>
        if bool_decide (resp_msg = ∅) then (self', Ok tt)
        else
          match to_be8 (len (dict_to_bytes resp_msg)) with
          | Raise e => (self', Raise e)
          | Ok prefix =>
              (transport_write (dict_to_bytes resp_msg)
                 (transport_write prefix self'), Ok tt)
          end
    end.
Proof.
  intros Hrecv. unfold write_and_reply, receiver_write, bind, get.
  rewrite Hrecv. unfold within.
  destruct (Receiver.write data receiver) as [receiver' [[resp_msg|]|e]];
    try reflexivity.
  unfold truthy. destruct (bool_decide (resp_msg = ∅)); [reflexivity|].
  cbn [negb]. unfold lift, modify.
  destruct (to_be8 (len (dict_to_bytes resp_msg))); reflexivity.
Qed.

(** C9. The delivery that completes the header frame of a transfer of
    size 0, with nothing after the frame: [dataReceived] returns having
    written the ack frame, whose digest is that of the empty input, and
    the receiver has closed its file with nothing left to come. *)
Theorem zero_length_transfer (fuel : nat) (self : ReceiveProtocol.t)
    (buffer data header_bytes prefix : bytes) (header : dict)
    (factory' : ReceiverFactory.t) (receiver : Receiver.t) :
  let ack_bytes := dict_to_bytes (ok_ack (sha256_hexdigest [])) in
  _in_header self = true ->
  _header_buffer self = Some buffer ->
  to_be8 (len header_bytes) = Ok prefix ->
  buffer ++ data = prefix ++ header_bytes ->
  bytes_to_dict header_bytes = Ok header ->
  header !! "size"%string = Some (PyInt 0) ->
  incoming_file fuel header (factory self) = Some (factory', Ok receiver) ->
  len ack_bytes < 2 ^ 64 ->
  exists self' receiver',
    dataReceived fuel data self = Some (self', Ok tt)
    /\ transport self'
       = transport self ++ [Twrite (be_pack 8 (len ack_bytes)); Twrite ack_bytes]
    /\ _receiver self' = Some receiver'
    /\ Receiver.remaining receiver' = 0
    /\ closed (Receiver.fd receiver') = true
    /\ written (Receiver.fd receiver') = [].
Proof.
  intros ack_bytes Hin Hbuf Hprefix Hframe Hdec Hsize Hfac Hack.
  apply to_be8_inv in Hprefix as [Hlen ->].
  rewrite <- (app_nil_r header_bytes) in Hframe at 2.
  rewrite (dataReceived_completes_header fuel self buffer data header_bytes []
             header factory' receiver Hin Hbuf (proj2 Hlen) Hframe Hdec Hfac).
  destruct (incoming_file_returns _ _ _ _ _ Hfac) as (n & Hcheck & ->).
  destruct (check_header_size _ _ Hcheck) as (v & Hv & Hint).
  rewrite Hsize in Hv. injection Hv as <-. cbn in Hint. injection Hint as <-.
  erewrite write_and_reply_eq by reflexivity.
  rewrite write_open by reflexivity. cbn [new_receiver Receiver.remaining].
  change (0 - len (@nil byte) =? 0) with true. cbv iota.
  change (Receiver.hasher (new_receiver 0) ++ []) with (@nil byte).
  pose proof (ok_ack_truthy (sha256_hexdigest [])) as Htruthy.
  unfold truthy in Htruthy. apply negb_true_iff in Htruthy. rewrite Htruthy.
  fold ack_bytes. rewrite to_be8_ok by (pose proof (len_nonneg ack_bytes); lia).
  eexists _, _. split; [reflexivity|]. split; [|repeat split].
  cbn. rewrite <- app_assoc. reflexivity.
Qed.

End ReceiveFacts.

(** The header frame of [empty.bin], of size 0, arrives in one delivery. *)
Lemma zero_length_transfer_witness :
  let frame := be_pack 8 (len (json_dumps (file_header "empty.bin" 0)))
                 ++ json_dumps (file_header "empty.bin" 0) in
  let ack_bytes := json_dumps (ok_ack sha256_of_empty) in
  exists self',
    @ReceiveProtocol.dataReceived sample 1 frame (ReceiveProtocol.init no_files)
      = Some (self', Ok tt)
    /\ ReceiveProtocol.transport self'
       = [Twrite (be_pack 8 (len ack_bytes)); Twrite ack_bytes].
Proof.
  intros frame ack_bytes.
  destruct (@zero_length_transfer sample 1 (ReceiveProtocol.init no_files)
              [] frame (json_dumps (file_header "empty.bin" 0))
              (be_pack 8 (len (json_dumps (file_header "empty.bin" 0))))
              (file_header "empty.bin" 0)
              {| ReceiverFactory.existing := {[ "/home/user/Downloads/empty.bin"%string ]} ∪ ∅ |}
              (new_receiver 0))
    as (self' & receiver' & Hrun & Htr & _);
    try (vm_compute; reflexivity).
  exists self'. split; [exact Hrun|exact Htr].
Defined.

(** ** The destination name *)

Section Names.
Context `{Collaborators}.
Import ReceiverFactory.

(** The loop leaves with a path that does not exist, once it may run for
    as many iterations as there are existing paths in [candidates], a set
    that holds the current target and every numbered path still to come
    that exists. *)
Lemma free_target_finds (name : string) (self : t) (fuel : nat) :
  forall (count : Z) (target : string) (candidates : gset string),
    numbered_paths_distinct name count ->
    (forall k, count <= k -> downloads_child (numbered name k) <> Ok target) ->
    (target ∈ existing self -> target ∈ candidates) ->
    (forall k p, count <= k -> downloads_child (numbered name k) = Ok p ->
                 p ∈ existing self -> p ∈ candidates) ->
    (size candidates <= fuel)%nat ->
    exists free, free_target fuel name count target self = Some (Ok free)
                 /\ (free ∉ existing self).
Proof.
  induction fuel as [|fuel IH];
    intros count target candidates [Htotal Hinj] Hfresh Htarget Hcand Hsize.
  - cbn [free_target]. destruct (decide (target ∈ existing self)) as [Hin|Hout].
    + apply Htarget in Hin.
      assert (size candidates = 0)%nat as Hzero by lia.
      apply size_empty_iff in Hzero. set_solver.
    + rewrite bool_decide_eq_false_2 by exact Hout. eauto.
  - cbn [free_target]. destruct (decide (target ∈ existing self)) as [Hin|Hout].
    2:{ rewrite bool_decide_eq_false_2 by exact Hout. eauto. }
    rewrite bool_decide_eq_true_2 by exact Hin.
    destruct (Htotal count ltac:(lia)) as [next Hnext]. rewrite Hnext.
    apply (IH (count + 1) next (candidates ∖ {[ target ]})).
    + split.
      * intros k Hk. apply Htotal. lia.
      * intros j k p Hj Hk. apply Hinj; lia.
    + intros k Hk Hsame.
      assert (count = k) by (apply (Hinj count k next); [lia|lia|exact Hnext|exact Hsame]).
      lia.
    + intros Hnin. apply elem_of_difference. split.
      * apply (Hcand count next); [lia|exact Hnext|exact Hnin].
      * intros Heq%elem_of_singleton. subst next.
        apply (Hfresh count); [lia|exact Hnext].
    + intros k p Hk Hp Hpin. apply elem_of_difference. split.
      * apply (Hcand k p); [lia|exact Hp|exact Hpin].
      * intros Heq%elem_of_singleton. subst p.
        apply (Hfresh k); [lia|exact Hp].
    + apply Htarget in Hin.
      rewrite size_difference by set_solver. rewrite size_singleton.
      assert (0 < size candidates)%nat.
      { destruct (size candidates) eqn:E; [|lia].
        apply size_empty_iff in E. set_solver. }
      lia.
Qed.

(** Name-collision avoidance: with one iteration allowed per existing
    path, the loop of [incoming_file] ends with a path that did not
    exist. *)
Lemma free_target_total (name target : string) (self : t) (fuel : nat) :
  numbered_paths_distinct name 1 ->
  (forall k, 1 <= k -> downloads_child (numbered name k) <> Ok target) ->
  (size (existing self) <= fuel)%nat ->
  exists free, free_target fuel name 1 target self = Some (Ok free)
               /\ (free ∉ existing self).
Proof.
  intros Hdistinct Hfresh Hfuel.
  apply (free_target_finds name self fuel 1 target (existing self));
    auto.
Qed.

End Names.

Lemma string_app_nil_r (s : string) : (s +:+ EmptyString)%string = s.
Proof.
  induction s as [|c s IH]; [reflexivity|].
  change (String c (s +:+ EmptyString)%string = String c s). f_equal. exact IH.
Qed.

Lemma string_snoc_inj (c : ascii) (a b : string) :
  (a +:+ String c EmptyString)%string = (b +:+ String c EmptyString)%string -> a = b.
Proof.
  revert b. induction a as [|x a IH]; intros [|y b]; cbn; intros Heq.
  - reflexivity.
  - injection Heq as _ Heq. destruct b; discriminate.
  - injection Heq as _ Heq. destruct a; discriminate.
  - injection Heq as -> Heq. rewrite (IH b Heq). reflexivity.
Qed.

Lemma numbered_inj (name : string) (j k : Z) :
  ReceiverFactory.numbered name j = ReceiverFactory.numbered name k -> j = k.
Proof.
  unfold ReceiverFactory.numbered. intros Heq.
  apply String.app_inj in Heq. apply String.app_inj in Heq.
  apply string_snoc_inj in Heq. apply (inj pretty) in Heq. exact Heq.
Qed.

Lemma numbered_not_name (name : string) (k : Z) :
  ReceiverFactory.numbered name k <> name.
Proof.
  unfold ReceiverFactory.numbered. intros Heq.
  rewrite <- (string_app_nil_r name) in Heq at 2.
  apply String.app_inj in Heq. discriminate.
Qed.

(** The sample directory gives every name a path of its own. *)
Lemma sample_paths_distinct (name : string) :
  @numbered_paths_distinct sample name 1
  /\ forall k, 1 <= k ->
       @downloads_child sample (ReceiverFactory.numbered name k)
       <> @downloads_child sample name.
Proof.
  split; [split|].
  - intros k _. cbn. eauto.
  - intros j k p _ _. cbn. intros [= <-] [= Heq].
    apply String.app_inj in Heq. symmetry. exact (numbered_inj _ _ _ Heq).
  - intros k _. cbn. intros [= Heq]. apply String.app_inj in Heq.
    exact (numbered_not_name _ _ Heq).
Qed.

(** ** The checks of [incoming_file] *)

Lemma eq_str_true (v : pyval) (s : string) : eq_str v s = true <-> v = PyStr s.
Proof.
  destruct v; cbn; try (split; [discriminate|intros [=]]).
  rewrite String.eqb_eq. split; [intros ->; reflexivity|intros [= ->]; reflexivity].
Qed.

Lemma as_integer_Some (v : pyval) : (exists n, as_integer v = Some n) <-> is_python_int v.
Proof.
  unfold is_python_int. split.
  - intros [n Hn]. destruct v; cbn in Hn; try discriminate; eauto.
  - intros [[z ->]|[b ->]]; cbn; eauto.
Qed.

Section Checks.
Context `{Collaborators}.
Import ReceiverFactory.

Lemma check_header_raises_iff (header : dict) :
  (exists e, check_header header = Raise e) <-> rejected header.
Proof.
  unfold check_header, rejected, getitem.
  destruct (header !! "type"%string) as [ty|] eqn:Ety.
  2:{ split; [intros _; left; discriminate|eauto]. }
  destruct (eq_str ty "file") eqn:Efile; cbn [negb].
  2:{ split; [|eauto]. intros _. left. intros [= ->]. cbn in Efile.
      discriminate. }
  apply eq_str_true in Efile as ->.
  destruct (header !! "compression"%string) as [c|] eqn:Ec.
  { split; [intros _; right; left; eauto|eauto]. }
  destruct (header !! "size"%string) as [v|] eqn:Ev.
  2:{ split; [|eauto]. intros _. right. right. intros (v & [=] & _). }
  destruct (as_integer v) as [n|] eqn:En.
  - split.
    + intros [e [=]].
    + intros [Hty|[Hc|Hsz]].
      * contradiction.
      * destruct Hc as [? [=]].
      * exfalso. apply Hsz. exists v. split; [reflexivity|].
        apply as_integer_Some. eauto.
  - split; [|eauto]. intros _. right. right. intros (v' & [= <-] & Hint).
    apply as_integer_Some in Hint as [n Hn]. congruence.
Qed.

(** C3, as the code has it.  The checks of [incoming_file] raise exactly
    when the type is missing or is not ["file"], or a compression key is
    present, or the size is missing or is not an integer; a negative
    integer passes.  When they raise, [incoming_file] raises with the
    factory as it was: no destination is opened.  When they pass,
    [incoming_file] goes on to the destination: with a name that has a
    path, and numbered names that have paths of their own, it returns,
    having opened a path that did not exist, a new receiver that expects
    the declared size. *)
Theorem header_checks (header : dict) :
  ((exists e, check_header header = Raise e) <-> rejected header)
  /\ (rejected header ->
      forall fuel fac, exists e, incoming_file fuel header fac = Some (fac, Raise e))
  /\ (~ rejected header ->
      exists v n,
        header !! "size"%string = Some v /\ as_integer v = Some n
        /\ check_header header = Ok n
        /\ forall fuel fac name target,
            header !! "name"%string = Some (PyStr name) ->
            downloads_child name = Ok target ->
            numbered_paths_distinct name 1 ->
            (forall k, 1 <= k -> downloads_child (numbered name k) <> Ok target) ->
            (size (existing fac) <= fuel)%nat ->
            exists free,
              (free ∉ existing fac)
              /\ incoming_file fuel header fac
                 = Some ({| existing := {[ free ]} ∪ existing fac |},
                         Ok (new_receiver n))).
Proof.
  split; [apply check_header_raises_iff|]. split.
  - intros Hrej fuel fac. apply check_header_raises_iff in Hrej as [e He].
    exists e. unfold incoming_file. rewrite He. reflexivity.
  - intros Hacc.
    destruct (check_header header) as [n|e] eqn:Hcheck.
    2:{ exfalso. apply Hacc, check_header_raises_iff. eauto. }
    destruct (check_header_size _ _ Hcheck) as (v & Hv & Hint).
    exists v, n. do 3 (split; [assumption || reflexivity|]).
    intros fuel fac name target Hname Hchild Hdistinct Hfresh Hfuel.
    destruct (free_target_total name target fac fuel Hdistinct Hfresh Hfuel)
      as (free & Hloop & Hfree).
    exists free. split; [exact Hfree|].
    unfold incoming_file, getitem. rewrite Hcheck, Hname, Hchild, Hloop.
    reflexivity.
Qed.

End Checks.

(** A header for three bytes named [a.bin], into a directory that has an
    [a.bin] already. *)
Lemma header_checks_witness :
  exists free,
    free <> "/home/user/Downloads/a.bin"%string
    /\ @ReceiverFactory.incoming_file sample 1 (file_header "a.bin" 3)
         {| ReceiverFactory.existing := {[ "/home/user/Downloads/a.bin"%string ]} |}
       = Some ({| ReceiverFactory.existing :=
                    {[ free ]} ∪ {[ "/home/user/Downloads/a.bin"%string ]} |},
               Ok (new_receiver 3)).
Proof.
  destruct (@header_checks sample (file_header "a.bin" 3)) as (Hiff & _ & Haccept).
  destruct Haccept as (v & n & Hv & Hn & _ & Hopen).
  - intros [Hty|[[c Hc]|Hsz]].
    + apply Hty. reflexivity.
    + discriminate Hc.
    + apply Hsz. exists (PyInt 3). split; [reflexivity|]. left. eauto.
  - assert (v = PyInt 3) as -> by (vm_compute in Hv; congruence).
    cbn in Hn. injection Hn as <-.
    destruct (sample_paths_distinct "a.bin") as [Hdistinct Hfresh].
    destruct (Hopen 1%nat
                {| ReceiverFactory.existing := {[ "/home/user/Downloads/a.bin"%string ]} |}
                "a.bin"%string "/home/user/Downloads/a.bin"%string
                eq_refl eq_refl Hdistinct Hfresh) as (free & Hfree & Hrun).
    + cbn. rewrite size_singleton. lia.
    + exists free. split; [|exact Hrun]. cbn in Hfree. set_solver.
Defined.

(** C3 as stated fails: a header whose size is [-1] is invalid in the words
    of the specification, and [incoming_file] accepts it: it opens the
    destination and returns a receiver. *)
Lemma negative_size_accepted :
  invalid_by_specification (file_header "a.bin" (-1))
  /\ @ReceiverFactory.incoming_file sample 0 (file_header "a.bin" (-1)) no_files
     = Some ({| ReceiverFactory.existing := {[ "/home/user/Downloads/a.bin"%string ]} ∪ ∅ |},
             Ok (new_receiver (-1))).
Proof.
  split.
  - right. right. intros (z & Hz & Hnonneg).
    vm_compute in Hz. injection Hz as <-. lia.
  - reflexivity.
Qed.

(** ** Closing a stream *)

(** C4, as the code has it.  A sender whose stream closes before a
    complete ack frame has arrived hands a "premature close" failure to
    its observer; a receive protocol whose stream closes after its header
    was accepted, with bytes still expected, raises "unexpected close"; a
    receive protocol whose stream closes before it has a receiver returns
    without an error and changes nothing. *)
Theorem premature_close :
  (forall self : SendProtocol.t,
      SendProtocol._done self = false ->
      SendProtocol.connectionLost self
      = (SendProtocol.set_done_observer
           (SendProtocol._done_observer self ++ [Error "premature close"%string])
           self,
         Ok tt))
  /\ (forall (self : ReceiveProtocol.t) (receiver : Receiver.t),
      ReceiveProtocol._receiver self = Some receiver ->
      Receiver.remaining receiver <> 0 ->
      ReceiveProtocol.connectionLost self
      = (self, Raise (RuntimeError UnexpectedClose)))
  /\ (forall self : ReceiveProtocol.t,
      ReceiveProtocol._receiver self = None ->
      ReceiveProtocol.connectionLost self = (self, Ok tt)).
Proof.
  split; [|split].
  - intros self Hdone. unfold SendProtocol.connectionLost, SendProtocol.observe.
    run_m. rewrite Hdone. reflexivity.
  - intros self receiver Hrecv Hrem.
    unfold ReceiveProtocol.connectionLost, Receiver.close. run_m.
    rewrite Hrecv. cbn. apply Z.eqb_neq in Hrem. rewrite Hrem. cbn.
    destruct self; cbn in *. subst. reflexivity.
  - intros self Hrecv. unfold ReceiveProtocol.connectionLost. run_m.
    rewrite Hrecv. reflexivity.
Qed.

(** A sender that has just connected, and a receiver two bytes short. *)
Lemma premature_close_witness :
  SendProtocol._done_observer
    (fst (SendProtocol.connectionLost
            (SendProtocol.init [x01] (file_header "a.bin" 1) 1)))
  = [Error "premature close"%string]
  /\ snd (ReceiveProtocol.connectionLost
            {| ReceiveProtocol._in_header := false;
               ReceiveProtocol._header_buffer := None;
               ReceiveProtocol._receiver := Some (new_receiver 2);
               ReceiveProtocol.transport := [];
               ReceiveProtocol.factory := no_files |})
     = Raise (RuntimeError UnexpectedClose).
Proof.
  destruct premature_close as (Hsend & Hrecv & _). split.
  - rewrite (Hsend (SendProtocol.init [x01] (file_header "a.bin" 1) 1) eq_refl).
    reflexivity.
  - erewrite Hrecv; [reflexivity|reflexivity|discriminate].
Defined.

(** C4 as stated fails: a stream that closes while the receive protocol is
    still waiting for its header raises nothing and tells nobody. *)
Lemma close_before_header_is_silent :
  ReceiveProtocol.connectionLost (ReceiveProtocol.init no_files)
  = (ReceiveProtocol.init no_files, Ok tt).
Proof. reflexivity. Qed.

(** ** Acks *)

Section Acks.
Context `{Collaborators}.
Import SendProtocol.

(** The call of [dataReceived] that completes the ack frame. *)
Lemma dataReceived_completes_ack (self : t) (data ack_bytes extra : bytes)
    (ack : dict) :
  _done self = false ->
  len ack_bytes < 2 ^ 64 ->
  _ack_buffer self ++ data = be_pack 8 (len ack_bytes) ++ ack_bytes ++ extra ->
  bytes_to_dict ack_bytes = Ok ack ->
  dataReceived data self = process_ack ack (closing data self).
Proof.
  intros Hdone Hlen Hframe Hdec.
  unfold dataReceived, transport_loseConnection, bind at 1, get at 1.
  rewrite Hdone. cbv iota.
  unfold bind at 1, modify at 1. unfold bind at 1, get at 1.
  cbn [_ack_buffer set_ack_buffer]. rewrite Hframe.
  rewrite split_frame_complete by exact Hlen.
  unfold bind at 1, lift at 1. unfold bind at 1, lift at 1. rewrite Hdec.
  unfold bind at 1, modify at 1. unfold bind at 1, modify at 1.
  unfold closing. rewrite Hframe. reflexivity.
Qed.

(** [process_ack] without its monad: the tests in the order of the
    source, the two subscriptions included. *)
Lemma process_ack_cases (ack : dict) (self : t) :
  process_ack ack self =
    match _expected_hexhash self with
    | None => (self, Raise (RuntimeError PrematureAck))
    | Some expected =>
        match ack !! "ack"%string with
        | None => (self, Raise (KeyError "ack"))
        | Some a =>
            if negb (eq_str a "ok") then (self, Raise (RuntimeError (AckNotOk ack)))
            else
              match ack !! "sha256"%string with
              | None => (self, Raise (KeyError "sha256"))
              | Some h =>
                  if negb (eq_str h expected) then
                    (self, Raise (RuntimeError (AckBadHash h expected)))
                  else
                    (set_done_observer (_done_observer self ++ [Fire "ok"%string]) self,
                     Ok tt)
              end
        end
    end.
Proof.
  unfold process_ack, observe, getitem. run_m.
  destruct (_expected_hexhash self) as [expected|]; [|reflexivity].
  destruct (ack !! "ack"%string) as [a|]; cbn; [|reflexivity].
  destruct (eq_str a "ok"); cbn; [|reflexivity].
  destruct (ack !! "sha256"%string) as [h|]; cbn; [|reflexivity].
  destruct (eq_str h expected); reflexivity.
Qed.

(** The call of [dataReceived] that completes a frame whose payload does
    not decode: the error of the decoder, before [_done] is set. *)
Lemma dataReceived_undecodable_ack (self : t) (data ack_bytes extra : bytes)
    (e : exn) :
  _done self = false ->
  len ack_bytes < 2 ^ 64 ->
  _ack_buffer self ++ data = be_pack 8 (len ack_bytes) ++ ack_bytes ++ extra ->
  bytes_to_dict ack_bytes = Raise e ->
  dataReceived data self
  = (set_ack_buffer (_ack_buffer self ++ data) self, Raise e).
Proof.
  intros Hdone Hlen Hframe Hdec.
  unfold dataReceived, transport_loseConnection, bind at 1, get at 1.
  rewrite Hdone. cbv iota.
  unfold bind at 1, modify at 1. unfold bind at 1, get at 1.
  cbn [_ack_buffer set_ack_buffer]. rewrite Hframe.
  rewrite split_frame_complete by exact Hlen.
  unfold bind at 1, lift at 1. unfold bind at 1, lift at 1. rewrite Hdec.
  reflexivity.
Qed.

(** Two outcomes that both describe the same run are the same outcome. *)
Ltac other_outcome Ho :=
  exfalso; unfold outcome_is, is_Some in Ho;
  repeat match type of Ho with
         | _ /\ _ => let H1 := fresh in destruct Ho as [H1 Ho]
         | exists _, _ => let x := fresh in destruct Ho as [x Ho]
         end;
  congruence.

(** C7. The call of [dataReceived] that completes a frame at a sender
    that is not done.  When the payload does not decode, the call raises
    the decoder's error and the sender is not marked done.  Otherwise the
    sender is marked done, its connection is closed and the ack is
    processed, with exactly one of six outcomes: the premature-ack error
    when no digest is expected yet; else [KeyError] when the ack has no
    key ["ack"]; else the ack-not-ok error when the value of [ack] is not
    ["ok"]; else [KeyError] when the ack has no key ["sha256"]; else the
    bad-hash error when [sha256] is not the expected digest; else the
    observer is fired with ["ok"]. *)
Theorem ack_frame_outcomes (self : t) (data ack_bytes prefix extra : bytes) :
  _done self = false ->
  to_be8 (len ack_bytes) = Ok prefix ->
  _ack_buffer self ++ data = prefix ++ ack_bytes ++ extra ->
  match bytes_to_dict ack_bytes with
  | Raise e =>
      dataReceived data self
      = (set_ack_buffer (_ack_buffer self ++ data) self, Raise e)
  | Ok ack =>
      _done (closing data self) = true
      /\ transport (closing data self) = transport self ++ [TloseConnection]
      /\ dataReceived data self = process_ack ack (closing data self)
      /\ exists! o : ack_outcome,
          outcome_is o ack (closing data self) (dataReceived data self)
  end.
Proof.
  intros Hdone Hprefix Hframe.
  apply to_be8_inv in Hprefix as [Hlen ->].
  destruct (bytes_to_dict ack_bytes) as [ack|e] eqn:Hdec.
  2:{ exact (dataReceived_undecodable_ack self data ack_bytes extra e
               Hdone (proj2 Hlen) Hframe Hdec). }
  rewrite (dataReceived_completes_ack self data ack_bytes extra ack
             Hdone (proj2 Hlen) Hframe Hdec).
  do 3 (split; [reflexivity|]).
  rewrite (process_ack_cases ack).
  generalize (closing data self). intros before.
  destruct (_expected_hexhash before) as [expected|] eqn:Hexp.
  2:{ exists PrematureAckError. split; [cbn; auto|].
      intros [] Ho; try reflexivity; other_outcome Ho. }
  destruct (ack !! "ack"%string) as [a|] eqn:Ha.
  2:{ exists MissingAckKey. split; [cbn; eauto|].
      intros [] Ho; try reflexivity; other_outcome Ho. }
  destruct (eq_str a "ok") eqn:Eok; cbn [negb].
  2:{ assert (a <> PyStr "ok") as Hne.
      { intros Heq. apply eq_str_true in Heq. congruence. }
      exists AckNotOkError. split; [cbn; eauto 6|].
      intros [] Ho; try reflexivity; other_outcome Ho. }
  apply eq_str_true in Eok. subst a.
  destruct (ack !! "sha256"%string) as [h|] eqn:Hh.
  2:{ exists MissingDigestKey. split; [cbn; eauto|].
      intros [] Ho; try reflexivity; other_outcome Ho. }
  destruct (eq_str h expected) eqn:Ehash; cbn [negb].
  - apply eq_str_true in Ehash. subst h.
    exists Success. split; [cbn; eauto|].
    intros [] Ho; try reflexivity; other_outcome Ho.
  - assert (h <> PyStr expected) as Hne.
    { intros Heq. apply eq_str_true in Heq. congruence. }
    exists HashMismatchError. split; [cbn; eauto 7|].
    intros [] Ho; try reflexivity; other_outcome Ho.
Qed.

End Acks.

(** The sender of [01 02 03], at the end of its file, is given the ack
    frame with the right digest in one delivery. *)
Lemma ack_frame_outcomes_witness :
  let sender := @SendProtocol.pull sample 4
                  (fst (@SendProtocol.connectionMade sample
                          (SendProtocol.init [x01; x02; x03] (file_header "a.bin" 3) 3))) in
  let ack_bytes := json_dumps (ok_ack sha256_of_010203) in
  let frame := be_pack 8 (len ack_bytes) ++ ack_bytes in
  match @bytes_to_dict sample ack_bytes with
  | Raise e =>
      @SendProtocol.dataReceived sample frame sender
      = (SendProtocol.set_ack_buffer (SendProtocol._ack_buffer sender ++ frame) sender,
         Raise e)
  | Ok ack =>
      SendProtocol._done (closing frame sender) = true
      /\ SendProtocol.transport (closing frame sender)
         = SendProtocol.transport sender ++ [TloseConnection]
      /\ @SendProtocol.dataReceived sample frame sender
         = SendProtocol.process_ack ack (closing frame sender)
      /\ exists! o : ack_outcome,
          outcome_is o ack (closing frame sender)
                     (@SendProtocol.dataReceived sample frame sender)
  end.
Proof.
  intros sender ack_bytes frame.
  apply (@ack_frame_outcomes sample sender frame ack_bytes
           (be_pack 8 (len ack_bytes)) []);
    vm_compute; reflexivity.
Defined.

(** C7 as stated fails: the sender of [01 02 03], at the end of its file
    and with its digest set, is given the complete frame of an ack that
    says ok and has no digest.  The subscription [ack["sha256"]] raises
    [KeyError], which is none of the four outcomes: the ack is not
    premature, its value is ok, no hash mismatch is reported and the
    observer is not fired. *)
Lemma ack_without_digest_raises_KeyError :
  let sender := @SendProtocol.pull sample 4
                  (fst (@SendProtocol.connectionMade sample
                          (SendProtocol.init [x01; x02; x03] (file_header "a.bin" 3) 3))) in
  let ack_bytes := json_dumps ack_without_digest in
  let frame := be_pack 8 (len ack_bytes) ++ ack_bytes in
  SendProtocol._done sender = false
  /\ SendProtocol._expected_hexhash sender = Some sha256_of_010203
  /\ @bytes_to_dict sample ack_bytes = Ok ack_without_digest
  /\ ack_without_digest !! "ack"%string = Some (PyStr "ok")
  /\ @SendProtocol.dataReceived sample frame sender
     = (closing frame sender, Raise (KeyError "sha256"))
  /\ SendProtocol._done_observer (closing frame sender) = [].
Proof. vm_compute. repeat split. Qed.


(** ** The sending loop *)

Lemma app_cons_inv {A} (x y : A) (pre post l : list A) :
  x :: l = pre ++ y :: post ->
  (pre = [] /\ x = y /\ l = post)
  \/ (exists pre', pre = x :: pre' /\ l = pre' ++ y :: post).
Proof.
  destruct pre as [|z pre']; cbn; intros [= -> ->]; [left; auto|right; eauto].
Qed.

(** Where a [Connect] stands among the events of the loop, every earlier
    file is done; the loop never sends on the control channel; and when the
    loop has run to its end every file is done. *)
Lemma send_files_order (isfile : string -> bool) (args : list string) :
  forall (i : nat) (answers : list answer),
    let (evs, finished) := send_files isfile i args answers in
    (forall j fn pre post,
        evs = pre ++ Connect j fn :: post ->
        (i <= j)%nat
        /\ nth_error args (j - i) = Some fn
        /\ forall k, (i <= k < j)%nat -> In (Done k) pre)
    /\ (forall msg, ~ In (ControlSend msg) evs)
    /\ ~ In Close evs
    /\ (finished = true ->
        forall k, (i <= k < i + length args)%nat -> In (Done k) evs).
Proof.
  induction args as [|fn0 args IH]; intros i answers; cbn [send_files].
  - split; [|split; [|split]].
    + intros j fn pre post Hsplit. destruct pre; discriminate.
    + intros msg [].
    + intros [].
    + intros _ k Hk. cbn in Hk. lia.
  - destruct (isfile fn0); cbn [negb].
    2:{ split; [|split; [|split]].
        - intros j fn pre post Hsplit.
          destruct pre as [|? [|? ?]]; discriminate.
        - intros msg [Hin|[]]. discriminate.
        - intros [Hin|[]]. discriminate.
        - discriminate. }
    destruct answers as [|[|failure] answers].
    + split; [|split; [|split]].
      * intros j fn pre post Hsplit.
        destruct pre as [|? [|? ?]]; try discriminate.
        injection Hsplit as <- <- _. rewrite Nat.sub_diag. cbn.
        repeat split; try reflexivity. intros k Hk. lia.
      * intros msg [Hin|[]]. discriminate.
      * intros [Hin|[]]. discriminate.
      * discriminate.
    + specialize (IH (S i) answers).
      destruct (send_files isfile (S i) args answers) as [evs finished].
      destruct IH as (Hconn & Hctl & Hclose & Hfin).
      split; [|split; [|split]].
      * intros j fn pre post Hsplit.
        apply app_cons_inv in Hsplit as [(-> & [= <- <-] & _)|(pre' & -> & Hsplit)].
        { rewrite Nat.sub_diag. cbn. repeat split; try reflexivity.
          intros k Hk. lia. }
        apply app_cons_inv in Hsplit as [(_ & [=] & _)|(pre'' & -> & Hsplit)].
        destruct (Hconn j fn pre'' post Hsplit) as (Hle & Hnth & Hdone).
        split; [lia|]. split.
        { replace (j - i)%nat with (S (j - S i)) by lia. exact Hnth. }
        intros k Hk. destruct (Nat.eq_dec k i) as [->|Hne].
        -- right. left. reflexivity.
        -- right. right. apply Hdone. lia.
      * intros msg [Hin|[Hin|Hin]]; try discriminate. exact (Hctl msg Hin).
      * intros [Hin|[Hin|Hin]]; try discriminate. exact (Hclose Hin).
      * intros Hf k Hk. cbn [length] in Hk.
        destruct (Nat.eq_dec k i) as [->|Hne].
        -- right. left. reflexivity.
        -- right. right. apply (Hfin Hf). lia.
    + split; [|split; [|split]].
      * intros j fn pre post Hsplit.
        destruct pre as [|? [|? [|? ?]]]; try discriminate.
        injection Hsplit as <- <- _. rewrite Nat.sub_diag. cbn.
        repeat split; try reflexivity. intros k Hk. lia.
      * intros msg [Hin|[Hin|[]]]; discriminate.
      * intros [Hin|[Hin|[]]]; discriminate.
      * discriminate.
Qed.

(** A split of [l ++ tail] at an element that is not in [tail] is a split
    of [l]. *)
Lemma split_in_front {A} (x : A) (l tail pre post : list A) :
  l ++ tail = pre ++ x :: post -> ~ In x tail ->
  exists post', l = pre ++ x :: post' /\ post = post' ++ tail.
Proof.
  revert pre. induction l as [|y l IH]; intros pre Hsplit Hnotin.
  - cbn in Hsplit. exfalso. apply Hnotin. rewrite Hsplit.
    apply in_or_app. right. left. reflexivity.
  - cbn in Hsplit. apply app_cons_inv in Hsplit
      as [(-> & <- & <-)|(pre' & -> & Hsplit)].
    + exists l. auto.
    + destruct (IH pre' Hsplit Hnotin) as (post' & -> & ->).
      exists post'. auto.
Qed.

(** C8. In every run of the sending loop, whatever the transfers answer:
    the connection for file [i+1] is made only after the loop has been
    resumed with the success of file [i], and the control message, which
    is [{"done": "done"}], is sent only after it has been resumed with the
    success of every file. *)
Theorem sequential_sending (isfile : string -> bool) (args : list string)
    (answers : list answer) :
  let trace := open_tx isfile args answers in
  (forall i fn pre post,
      trace = pre ++ Connect (S i) fn :: post -> In (Done i) pre)
  /\ (forall msg pre post,
      trace = pre ++ ControlSend msg :: post ->
      msg = done_msg
      /\ forall i, (i < length args)%nat -> In (Done i) pre).
Proof.
  unfold open_tx.
  pose proof (send_files_order isfile args 0 answers) as Horder.
  destruct (send_files isfile 0 args answers) as [evs finished].
  destruct Horder as (Hconn & Hctl & Hclose & Hfin).
  cbn zeta. split.
  - intros i fn pre post Hsplit.
    assert (exists post', evs = pre ++ Connect (S i) fn :: post') as [post' Hevs].
    { destruct finished.
      - destruct (split_in_front _ _ _ _ _ Hsplit) as (post' & Hevs & _).
        + intros [Hin|[Hin|[]]]; discriminate.
        + eauto.
      - eauto. }
    destruct (Hconn _ _ _ _ Hevs) as (_ & _ & Hdone). apply Hdone. lia.
  - intros msg pre post Hsplit. destruct finished.
    + assert (pre = evs /\ msg = done_msg) as [-> ->].
      { clear - Hsplit Hctl. revert pre Hsplit.
        induction evs as [|e evs IH]; intros pre Hsplit.
        - cbn in Hsplit. destruct pre as [|? [|? [|? ?]]]; try discriminate.
          injection Hsplit as <- _. auto.
        - cbn in Hsplit. apply app_cons_inv in Hsplit
            as [(-> & -> & _)|(pre' & -> & Hsplit)].
          + exfalso. apply (Hctl msg). left. reflexivity.
          + destruct (IH (fun m Hin => Hctl m (or_intror Hin)) pre' Hsplit)
              as [-> ->]. auto. }
      split; [reflexivity|]. intros i Hi. apply (Hfin eq_refl). lia.
    + exfalso. apply (Hctl msg). rewrite Hsplit.
      apply in_or_app. right. left. reflexivity.
Qed.

(** Two files; the first transfer succeeds, the second has not answered. *)
Lemma sequential_sending_witness :
  In (Done 0) [Connect 0 "a.bin"%string; Done 0].
Proof.
  apply (proj1 (sequential_sending (fun _ => true) ["a.bin"; "b.bin"]%string [Fired])
           0%nat "b.bin"%string [Connect 0 "a.bin"%string; Done 0] []).
  reflexivity.
Defined.

(** ** The header on the wire *)

(** What [connectionMade] writes is the serialised header and nothing
    else: no length goes before it. *)
Lemma connectionMade_writes `{Collaborators} (self : SendProtocol.t) :
  SendProtocol.transport (fst (SendProtocol.connectionMade self))
  = SendProtocol.transport self
      ++ [Twrite (dict_to_bytes (SendProtocol._header self))].
Proof. reflexivity. Qed.

(** The receiving side frames its ack, and the control protocol its
    message, with the length first. *)
Lemma ControlProtocol_send_writes `{Collaborators} (msg : dict) (self : ControlProtocol.t) :
  len (dict_to_bytes msg) < 2 ^ 64 ->
  ControlProtocol.transport (fst (ControlProtocol.send msg self))
  = ControlProtocol.transport self
      ++ [Twrite (be_pack 8 (len (dict_to_bytes msg))); Twrite (dict_to_bytes msg)].
Proof.
  intros Hlen. unfold ControlProtocol.send, ControlProtocol.transport_write.
  run_m. rewrite to_be8_ok by (pose proof (len_nonneg (dict_to_bytes msg)); lia).
  cbn. rewrite <- app_assoc. reflexivity.
Qed.

(** C1 fails on the code.  The sender of the three bytes [01 02 03] as
    [a.bin] writes the 44 bytes of its serialised header and then the
    payload; the first 8 bytes on the stream are the start of the header
    text, not the length 44, and a receive protocol that is given the whole
    stream reads them as a length of 8872781112735507002, finds no frame
    and never gets a receiver. *)
Theorem header_sent_without_length_prefix :
  let header := file_header "a.bin" 3 in
  let sender := @SendProtocol.pull sample 2
                  (fst (@SendProtocol.connectionMade sample
                          (SendProtocol.init [x01; x02; x03] header 3))) in
  let stream := concat (writes (SendProtocol.transport sender)) in
  SendProtocol.transport sender
    = [Twrite (json_dumps header); Twrite [x01; x02; x03]]
  /\ to_be8 (len (json_dumps header))
     = Ok [x00; x00; x00; x00; x00; x00; x00; x2c]
  /\ take 8 stream = [x7b; x22; x73; x69; x7a; x65; x22; x3a]
  /\ from_be8 (PyBytes (take 8 stream)) = Ok 8872781112735507002
  /\ @ReceiveProtocol.dataReceived sample 1 stream (ReceiveProtocol.init no_files)
     = Some (ReceiveProtocol.set_header_buffer (Some stream)
               (ReceiveProtocol.init no_files),
             Ok tt).
Proof. vm_compute. repeat split. Qed.

(** ** More on the codec and the framing *)

Lemma nth_error_be_pack (n : nat) :
  forall (v : Z) (i : nat),
    (i < n)%nat ->
    nth_error (be_pack n v) i = Some (byte_of_Z (v / 256 ^ Z.of_nat (n - 1 - i))).
Proof.
  induction n as [|n IH]; intros v i Hi; [lia|].
  cbn [be_pack]. destruct (Nat.eq_dec i n) as [->|Hne].
  - rewrite nth_error_app2 by (rewrite length_be_pack; lia).
    rewrite length_be_pack, Nat.sub_diag.
    replace (S n - 1 - n)%nat with 0%nat by lia.
    cbn. rewrite Z.div_1_r. reflexivity.
  - rewrite nth_error_app1 by (rewrite length_be_pack; lia).
    rewrite IH by lia. f_equal. f_equal.
    rewrite Z.div_div by (try lia; apply Z.pow_pos_nonneg; lia).
    f_equal. rewrite <- Z.pow_succ_r by lia. f_equal. lia.
Qed.

(** X1. The bytes of [to_be8 v] are the base-256 digits of [v], the most
    significant first: byte [i] is [(v / 256^(7-i)) mod 256]. *)
Theorem to_be8_digits (v : Z) (b : bytes) (i : nat) :
  to_be8 v = Ok b ->
  (i < 8)%nat ->
  exists x, nth_error b i = Some x
            /\ Z_of_byte x = (v / 256 ^ Z.of_nat (7 - i)) mod 256.
Proof.
  intros Hb Hi. apply to_be8_inv in Hb as [_ ->].
  exists (byte_of_Z (v / 256 ^ Z.of_nat (7 - i))). split.
  - rewrite nth_error_be_pack by exact Hi. reflexivity.
  - apply Z_of_byte_of_Z.
Qed.

(** The second byte from the right of 0x0102 is 1. *)
Lemma to_be8_digits_witness :
  exists x, nth_error [x00; x00; x00; x00; x00; x00; x01; x02] 6 = Some x
            /\ Z_of_byte x = (258 / 256 ^ Z.of_nat (7 - 6)) mod 256.
Proof.
  apply (to_be8_digits 258 [x00; x00; x00; x00; x00; x00; x01; x02] 6);
    [reflexivity | lia].
Defined.

(** X2. [split_frame] never raises, and what it returns describes the
    buffer: a payload and a remainder only when the buffer is the length of
    the payload in 8 bytes, the payload and the remainder; no frame only
    when the buffer has fewer than 8 bytes or fewer bytes than its first 8
    declare. *)
Theorem split_frame_sound (buffer : bytes) :
  match split_frame buffer with
  | Ok (Some (payload, rest)) =>
      buffer = be_pack 8 (len payload) ++ payload ++ rest
      /\ len payload < 2 ^ 64
  | Ok None =>
      len buffer < 8 \/ len buffer < 8 + be_unpack (take 8 buffer)
  | Raise _ => False
  end.
Proof.
  unfold split_frame.
  destruct (len buffer <? 8) eqn:Eshort.
  { left. apply Z.ltb_lt. exact Eshort. }
  apply Z.ltb_ge in Eshort.
  assert (length (take 8 buffer) = 8%nat) as Hlen8.
  { rewrite length_take. unfold len in Eshort. lia. }
  unfold slice. change (Z.to_nat 0) with 0%nat. change (Z.to_nat (8 - 0)) with 8%nat.
  rewrite drop_0. unfold from_be8. rewrite Hlen8. cbn [Nat.eqb negb].
  pose proof (be_unpack_range (take 8 buffer)) as Hrange.
  rewrite Hlen8 in Hrange. change (256 ^ Z.of_nat 8) with (2 ^ 64) in Hrange.
  set (size := be_unpack (take 8 buffer)) in *.
  destruct (len buffer <? 8 + size) eqn:Epart.
  { right. apply Z.ltb_lt. exact Epart. }
  apply Z.ltb_ge in Epart.
  unfold slice_from. change (Z.to_nat 8) with 8%nat.
  replace (Z.to_nat (8 + size - 8)) with (Z.to_nat size) by lia.
  replace (Z.to_nat (8 + size)) with (8 + Z.to_nat size)%nat by lia.
  assert (len (take (Z.to_nat size) (drop 8 buffer)) = size) as Hpayload.
  { unfold len in *. rewrite length_take, length_drop. lia. }
  rewrite Hpayload. split; [|lia].
  replace (be_pack 8 size) with (take 8 buffer).
  2:{ unfold size. rewrite <- Hlen8 at 2. symmetry. apply be_pack_unpack. }
  rewrite <- drop_drop. rewrite (take_drop (Z.to_nat size) (drop 8 buffer)).
  rewrite take_drop. reflexivity.
Qed.

(** ** What a receiver keeps *)

Section ReceiverInvariants.
Context `{Collaborators}.
Import Receiver.

(** On a closed file every call raises before it counts anything: only
    the hasher moves. *)
Lemma write_each_on_closed (chunks : list bytes) (self : t) :
  closed (fd self) = true ->
  let (final, outs) := write_each chunks self in
  acks outs = []
  /\ fd final = fd self
  /\ remaining final = remaining self
  /\ progress final = progress self
  /\ hasher final = hasher self ++ concat chunks.
Proof.
  revert self. induction chunks as [|c chunks IH]; intros self Hcl.
  - cbn. rewrite app_nil_r. auto.
  - cbn [write_each concat]. rewrite write_closed by exact Hcl.
    specialize (IH (set_hasher (hasher self ++ c) self) Hcl).
    destruct (write_each chunks (set_hasher (hasher self ++ c) self))
      as [final outs].
    destruct IH as (Hacks & Hfd & Hrem & Hprog & Hha).
    cbn in Hfd, Hrem, Hprog, Hha. rewrite <- app_assoc in Hha.
    unfold acks in *. cbn. auto.
Qed.

(** What holds of a receiver whose file is open and whose hasher has seen
    what the file has. *)
Lemma write_each_open (chunks : list bytes) (self : t) :
  closed (fd self) = false ->
  hasher self = written (fd self) ->
  let (final, outs) := write_each chunks self in
  remaining final + len (written (fd final))
    = remaining self + len (written (fd self))
  /\ progress final - len (written (fd final))
     = progress self - len (written (fd self))
  /\ hasher final = hasher self ++ concat chunks
  /\ (exists rest, written (fd self) ++ concat chunks = written (fd final) ++ rest)
  /\ (closed (fd final) = true -> remaining final = 0)
  /\ acks outs
     = if closed (fd final)
       then [ok_ack (sha256_hexdigest (written (fd final)))]
       else [].
Proof.
  revert self. induction chunks as [|c chunks IH]; intros self Hopen Hsame.
  - cbn. rewrite Hopen, !app_nil_r. repeat split; try reflexivity.
    + exists []. rewrite app_nil_r. reflexivity.
    + discriminate.
  - cbn [write_each concat]. rewrite write_open by exact Hopen.
    destruct (remaining self - len c =? 0) eqn:E0.
    + (* the transfer completes: the file is closed *)
      apply Z.eqb_eq in E0.
      pose proof (write_each_on_closed chunks
                    (set_fd (file_close (fd (written_to c self))) (written_to c self))
                    eq_refl) as Hrest.
      destruct (write_each chunks _) as [final outs].
      destruct Hrest as (Hacks & Hfd & Hrem & Hprog & Hha).
      cbn in Hfd, Hrem, Hprog, Hha. rewrite Hfd, Hrem, Hprog, Hha. cbn.
      unfold acks in Hacks |- *. cbn. rewrite Hacks, len_app, Hsame, <- app_assoc.
      repeat split; try reflexivity; try lia.
      exists (concat chunks). rewrite <- app_assoc. reflexivity.
    + specialize (IH (written_to c self) eq_refl).
      cbn [written_to fd hasher written] in IH. rewrite Hsame in IH.
      specialize (IH eq_refl).
      destruct (remaining self - len c <? 0);
        destruct (write_each chunks (written_to c self)) as [final outs];
        destruct IH as (Hrem & Hprog & Hha & [rest Hrest] & Hcl & Hacks);
        cbn [written_to fd hasher written remaining progress] in *;
        rewrite len_app in Hrem, Hprog; rewrite <- app_assoc in Hha, Hrest;
        rewrite Hsame;
        (split; [lia|]); (split; [lia|]); (split; [exact Hha|]);
        (split; [exists rest; exact Hrest|]); (split; [exact Hcl|]);
        unfold acks in *; cbn; exact Hacks.
Qed.

(** X3. Whatever chunks a new receiver is given, and whatever its calls
    return: the bytes in the sink and the bytes still expected add up to
    the declared size; the progress count is the number of bytes in the
    sink; the sink holds a prefix of what was delivered; and the hasher has
    seen everything that was delivered. *)
Theorem receiver_accounts (size : Z) (chunks : list bytes) :
  let (final, outs) := write_each chunks (new_receiver size) in
  remaining final + len (written (fd final)) = size
  /\ progress final = len (written (fd final))
  /\ hasher final = concat chunks
  /\ exists rest, concat chunks = written (fd final) ++ rest.
Proof.
  pose proof (write_each_open chunks (new_receiver size) eq_refl eq_refl) as Hinv.
  destruct (write_each chunks (new_receiver size)) as [final outs].
  destruct Hinv as (Hrem & Hprog & Hha & Hrest & _).
  cbn in Hrem, Hprog, Hha, Hrest. unfold len in *. cbn in Hrem, Hprog.
  split; [lia|]. split; [lia|]. split; assumption.
Qed.

(** X4. A new receiver returns at most one ack, whatever it is given.  It
    returns one exactly when it ends with its file closed; the sink then
    holds exactly the declared number of bytes, and the digest in the ack
    is that of what the sink holds. *)
Theorem receiver_acks_once (size : Z) (chunks : list bytes) :
  let (final, outs) := write_each chunks (new_receiver size) in
  acks outs
  = (if closed (fd final)
     then [ok_ack (sha256_hexdigest (written (fd final)))]
     else [])
  /\ (closed (fd final) = true -> len (written (fd final)) = size).
Proof.
  pose proof (write_each_open chunks (new_receiver size) eq_refl eq_refl) as Hinv.
  destruct (write_each chunks (new_receiver size)) as [final outs].
  destruct Hinv as (Hrem & _ & _ & _ & Hcl & Hacks).
  split; [exact Hacks|]. intros Hclosed. specialize (Hcl Hclosed).
  cbn in Hrem. unfold len in Hrem at 2. cbn in Hrem. lia.
Qed.

(** What is left to come after the chunks, for a receiver whose file is
    open. *)
Lemma remaining_after (chunks : list bytes) (self : t) :
  closed (fd self) = false ->
  let final := fst (write_each chunks self) in
  remaining final = 0
  <-> (chunks = [] /\ remaining self = 0)
      \/ exists k, (1 <= k <= length chunks)%nat
                   /\ len (delivered k chunks) = remaining self.
Proof.
  revert self. induction chunks as [|c chunks IH]; intros self Hopen.
  - cbn. split.
    + intros Hz. left. auto.
    + intros [[_ Hz]|(k & Hk & _)]; [exact Hz|cbn in Hk; lia].
  - cbn [write_each]. rewrite write_open by exact Hopen.
    destruct (remaining self - len c =? 0) eqn:E0.
    + apply Z.eqb_eq in E0.
      pose proof (write_each_on_closed chunks
                    (set_fd (file_close (fd (written_to c self))) (written_to c self))
                    eq_refl) as Hrest.
      destruct (write_each chunks _) as [final outs].
      destruct Hrest as (_ & _ & Hrem & _). cbn in Hrem. cbn [fst].
      rewrite Hrem. split; [|intros _; exact E0].
      intros _. right. exists 1%nat. split; [cbn; lia|].
      unfold delivered. cbn. rewrite app_nil_r. lia.
    + apply Z.eqb_neq in E0.
      specialize (IH (written_to c self) eq_refl). cbn zeta in IH.
      cbn [written_to remaining] in IH.
      assert (fst (let (self'', rs) := write_each chunks (written_to c self) in
                   (self'', (if remaining self - len c <? 0
                             then Raise (RuntimeError ReceiverOverflow)
                             else Ok None) :: rs))
              = fst (write_each chunks (written_to c self))) as Hfst.
      { destruct (write_each chunks (written_to c self)). reflexivity. }
      assert (forall k, delivered (S k) (c :: chunks) = c ++ delivered k chunks)
        as Hdel by reflexivity.
      assert (len (delivered 0 chunks) = 0) as Hdel0 by reflexivity.
      destruct (remaining self - len c <? 0) eqn:E1; rewrite Hfst, IH;
        (split; [intros Hl|intros Hr]).
      all: try (destruct Hl as [[_ Hz]|(k & Hk & Hlen)]; [lia|];
                right; exists (S k); split; [cbn [length]; lia|];
                rewrite Hdel, len_app; lia).
      all: destruct Hr as [[Hnil _]|(k & Hk & Hlen)]; [discriminate|];
           destruct k as [|k]; [lia|];
           rewrite Hdel, len_app in Hlen;
           destruct k as [|k]; [rewrite Hdel0 in Hlen; lia|];
           right; exists (S k); split; [cbn [length] in Hk; lia|lia].
Qed.

(** X5. [close] on a new receiver that was given some chunks returns
    without an error exactly when one of the deliveries ended at the
    declared size (or nothing was delivered and the size is 0); otherwise
    it raises the unexpected-close error.  Bytes delivered after the
    delivery that ended at the size do not change this. *)
Theorem close_after_writes (size : Z) (chunks : list bytes) :
  let final := fst (write_each chunks (new_receiver size)) in
  (close final = (final, Ok tt)
   <-> (chunks = [] /\ size = 0)
       \/ exists k, (1 <= k <= length chunks)%nat
                    /\ len (delivered k chunks) = size)
  /\ (close final = (final, Ok tt)
      \/ close final = (final, Raise (RuntimeError UnexpectedClose))).
Proof.
  intros final.
  pose proof (remaining_after chunks (new_receiver size) eq_refl) as Hrem.
  cbn zeta in Hrem. fold final in Hrem. cbn [new_receiver remaining] in Hrem.
  unfold close. run_m. destruct (remaining final =? 0) eqn:E; cbn.
  - apply Z.eqb_eq in E. split; [|left; reflexivity].
    split; [intros _; apply Hrem; exact E|reflexivity].
  - apply Z.eqb_neq in E. split; [|right; reflexivity].
    split; [discriminate|]. intros Hdel. apply Hrem in Hdel. contradiction.
Qed.

End ReceiverInvariants.

(** ** The destination that is opened *)

Section Destination.
Context `{Collaborators}.
Import ReceiverFactory.

(** The path the loop leaves with does not exist.  It is the target the
    loop started with when that does not exist; otherwise it is the path
    of a numbered name, and the paths of all the numbered names tried
    before it exist. *)
Lemma free_target_first (name : string) (self : t) (fuel : nat) :
  forall (count : Z) (target free : string),
    free_target fuel name count target self = Some (Ok free) ->
    (free ∉ existing self)
    /\ (((target ∉ existing self) /\ free = target)
        \/ (target ∈ existing self
            /\ exists k, count <= k
                 /\ downloads_child (numbered name k) = Ok free
                 /\ forall j, count <= j < k ->
                      exists p, downloads_child (numbered name j) = Ok p
                                /\ p ∈ existing self)).
Proof.
  induction fuel as [|fuel IH]; intros count target free; cbn [free_target].
  - destruct (decide (target ∈ existing self)) as [Hin|Hout].
    + rewrite bool_decide_eq_true_2 by exact Hin. discriminate.
    + rewrite bool_decide_eq_false_2 by exact Hout. intros [= <-]. auto.
  - destruct (decide (target ∈ existing self)) as [Hin|Hout].
    2:{ rewrite bool_decide_eq_false_2 by exact Hout. intros [= <-]. auto. }
    rewrite bool_decide_eq_true_2 by exact Hin.
    destruct (downloads_child (numbered name count)) as [next|e] eqn:Hnext;
      [|discriminate].
    intros Hloop. destruct (IH _ _ _ Hloop) as [Hfree Hwhich].
    split; [exact Hfree|]. right. split; [exact Hin|].
    destruct Hwhich as [[Hnout ->]|(Hnin & k & Hk & Hchild & Hbefore)].
    + exists count. split; [lia|]. split; [exact Hnext|]. intros j Hj. lia.
    + exists k. split; [lia|]. split; [exact Hchild|].
      intros j Hj. destruct (Z.eq_dec j count) as [->|Hne].
      * eauto.
      * apply Hbefore. lia.
Qed.

Lemma incoming_file_inv (fuel : nat) (header : dict) (fac fac' : t)
    (r : result Receiver.t) :
  incoming_file fuel header fac = Some (fac', r) ->
  match r with
  | Raise _ => fac' = fac
  | Ok receiver =>
      exists name target free size,
        header !! "name"%string = Some (PyStr name)
        /\ downloads_child name = Ok target
        /\ free_target fuel name 1 target fac = Some (Ok free)
        /\ check_header header = Ok size
        /\ receiver = new_receiver size
        /\ fac' = {| existing := {[ free ]} ∪ existing fac |}
  end.
Proof.
  unfold incoming_file, getitem.
  destruct (check_header header) as [size|e]; [|intros [= <- <-]; reflexivity].
  destruct (header !! "name"%string) as [v|]; [|intros [= <- <-]; reflexivity].
  destruct v; try (intros [= <- <-]; reflexivity).
  destruct (downloads_child s) as [target|e] eqn:Hchild;
    [|intros [= <- <-]; reflexivity].
  destruct (free_target fuel s 1 target fac) as [[free|e]|] eqn:Hloop;
    [| |discriminate]; intros [= <- <-]; [|reflexivity].
  exists s, target, free, size. auto 10.
Qed.

(** X6. [incoming_file] never opens a path that exists.  When it raises,
    the set of existing paths is as it was; when it returns a receiver,
    exactly one path has been added, one that did not exist, and the
    receiver is new, with the integer of the header's size to come. *)
Theorem incoming_file_never_overwrites (fuel : nat) (header : dict)
    (fac fac' : t) (r : result Receiver.t) :
  incoming_file fuel header fac = Some (fac', r) ->
  match r with
  | Raise _ => fac' = fac
  | Ok receiver =>
      exists free v size,
        (free ∉ existing fac)
        /\ existing fac' = {[ free ]} ∪ existing fac
        /\ header !! "size"%string = Some v /\ as_integer v = Some size
        /\ receiver = new_receiver size
  end.
Proof.
  intros Hrun. pose proof (incoming_file_inv _ _ _ _ _ Hrun) as Hinv.
  destruct r as [receiver|e]; [|exact Hinv].
  destruct Hinv as (name & target & free & size & _ & _ & Hloop & Hcheck & -> & ->).
  destruct (free_target_first _ _ _ _ _ _ Hloop) as [Hfree _].
  destruct (check_header_size _ _ Hcheck) as (v & Hv & Hint).
  exists free, v, size. auto 10.
Qed.

(** X7. The destination is the first free name: the path of the header's
    name when that does not exist, and otherwise the path of
    ["name (k)"] for the least [k >= 1] whose path does not exist. *)
Theorem incoming_file_first_free_name (fuel : nat) (header : dict)
    (fac fac' : t) (receiver : Receiver.t) :
  incoming_file fuel header fac = Some (fac', Ok receiver) ->
  exists name target free,
    header !! "name"%string = Some (PyStr name)
    /\ downloads_child name = Ok target
    /\ existing fac' = {[ free ]} ∪ existing fac
    /\ (free ∉ existing fac)
    /\ (((target ∉ existing fac) /\ free = target)
        \/ (target ∈ existing fac
            /\ exists k, 1 <= k
                 /\ downloads_child (numbered name k) = Ok free
                 /\ forall j, 1 <= j < k ->
                      exists p, downloads_child (numbered name j) = Ok p
                                /\ p ∈ existing fac)).
Proof.
  intros Hrun. pose proof (incoming_file_inv _ _ _ _ _ Hrun) as Hinv.
  destruct Hinv as (name & target & free & size & Hname & Hchild & Hloop & _ & _ & ->).
  destruct (free_target_first _ _ _ _ _ _ Hloop) as [Hfree Hwhich].
  exists name, target, free. auto 10.
Qed.

(** X8. Two files of the same name, received one after the other, get two
    different paths, and both exist afterwards: the second does not take
    the place of the first. *)
Theorem same_name_twice (fuel1 fuel2 : nat) (header1 header2 : dict)
    (fac fac1 fac2 : t) (receiver1 receiver2 : Receiver.t) :
  incoming_file fuel1 header1 fac = Some (fac1, Ok receiver1) ->
  incoming_file fuel2 header2 fac1 = Some (fac2, Ok receiver2) ->
  exists path1 path2,
    path1 <> path2
    /\ (path1 ∉ existing fac)
    /\ (path2 ∉ existing fac)
    /\ existing fac2 = {[ path1; path2 ]} ∪ existing fac.
Proof.
  intros Hrun1 Hrun2.
  pose proof (incoming_file_inv _ _ _ _ _ Hrun1) as Hinv1.
  pose proof (incoming_file_inv _ _ _ _ _ Hrun2) as Hinv2.
  destruct Hinv1 as (n1 & t1 & path1 & s1 & _ & _ & Hloop1 & _ & _ & ->).
  destruct Hinv2 as (n2 & t2 & path2 & s2 & _ & _ & Hloop2 & _ & _ & ->).
  destruct (free_target_first _ _ _ _ _ _ Hloop1) as [Hfree1 _].
  destruct (free_target_first _ _ _ _ _ _ Hloop2) as [Hfree2 _].
  cbn [existing] in *.
  exists path1, path2. split.
  { intros ->. apply Hfree2. apply elem_of_union_l, elem_of_singleton. reflexivity. }
  split; [exact Hfree1|]. split.
  { intros Hin. apply Hfree2. apply elem_of_union_r. exact Hin. }
  apply set_eq. intros x. rewrite !elem_of_union, !elem_of_singleton. tauto.
Qed.

End Destination.

(** [a.bin] arrives where [a.bin] and [a.bin (1)] exist. *)
Lemma incoming_file_never_overwrites_witness :
  exists free v size,
    (free ∉ ReceiverFactory.existing crowded)
    /\ {[ "/home/user/Downloads/a.bin (2)"%string ]} ∪ ReceiverFactory.existing crowded
       = {[ free ]} ∪ ReceiverFactory.existing crowded
    /\ file_header "a.bin" 3 !! "size"%string = Some v /\ as_integer v = Some size
    /\ new_receiver 3 = new_receiver size.
Proof.
  exact (@incoming_file_never_overwrites sample 2 (file_header "a.bin" 3) crowded
           {| ReceiverFactory.existing :=
                {[ "/home/user/Downloads/a.bin (2)"%string ]}
                  ∪ ReceiverFactory.existing crowded |}
           (Ok (new_receiver 3)) eq_refl).
Defined.

Lemma incoming_file_first_free_name_witness :
  exists name target free,
    file_header "a.bin" 3 !! "name"%string = Some (PyStr name)
    /\ @downloads_child sample name = Ok target
    /\ {[ "/home/user/Downloads/a.bin (2)"%string ]} ∪ ReceiverFactory.existing crowded
       = {[ free ]} ∪ ReceiverFactory.existing crowded
    /\ (free ∉ ReceiverFactory.existing crowded)
    /\ (((target ∉ ReceiverFactory.existing crowded) /\ free = target)
        \/ (target ∈ ReceiverFactory.existing crowded
            /\ exists k, 1 <= k
                 /\ @downloads_child sample (ReceiverFactory.numbered name k) = Ok free
                 /\ forall j, 1 <= j < k ->
                      exists p, @downloads_child sample (ReceiverFactory.numbered name j)
                                = Ok p
                                /\ p ∈ ReceiverFactory.existing crowded)).
Proof.
  exact (@incoming_file_first_free_name sample 2 (file_header "a.bin" 3) crowded
           {| ReceiverFactory.existing :=
                {[ "/home/user/Downloads/a.bin (2)"%string ]}
                  ∪ ReceiverFactory.existing crowded |}
           (new_receiver 3) eq_refl).
Defined.

(** [a.bin] arrives twice in an empty directory. *)
Lemma same_name_twice_witness :
  exists path1 path2 : string,
    path1 <> path2
    /\ (path1 ∉ ReceiverFactory.existing no_files)
    /\ (path2 ∉ ReceiverFactory.existing no_files)
    /\ {[ "/home/user/Downloads/a.bin (1)"%string ]}
         ∪ ({[ "/home/user/Downloads/a.bin"%string ]} ∪ ∅)
       = {[ path1; path2 ]} ∪ ReceiverFactory.existing no_files.
Proof.
  exact (@same_name_twice sample 0 1 (file_header "a.bin" 3) (file_header "a.bin" 3)
           no_files
           {| ReceiverFactory.existing := {[ "/home/user/Downloads/a.bin"%string ]} ∪ ∅ |}
           {| ReceiverFactory.existing :=
                {[ "/home/user/Downloads/a.bin (1)"%string ]}
                  ∪ ({[ "/home/user/Downloads/a.bin"%string ]} ∪ ∅) |}
           (new_receiver 3) (new_receiver 3) eq_refl eq_refl).
Defined.

(** ** A whole transfer at the receiving side *)

(** A buffer that is a prefix of a frame followed by more bytes, and is
    shorter than the frame, gives no frame; a longer one is the frame and
    some of the bytes after it. *)
Lemma prefix_of_frame (buffer tail payload extra : bytes) :
  len payload < 2 ^ 64 ->
  buffer ++ tail = be_pack 8 (len payload) ++ payload ++ extra ->
  (len buffer < 8 + len payload /\ split_frame buffer = Ok None)
  \/ (exists rest, buffer = be_pack 8 (len payload) ++ payload ++ rest
                   /\ extra = rest ++ tail).
Proof.
  intros Hlen Hstream. pose proof (len_nonneg payload) as Hp.
  destruct (prefix_of_app _ _ _ _ Hstream) as [(a2 & Ha & Hl)|(b1 & b2 & Hb1 & Hb2)].
  - left. rewrite length_be_pack in Hl.
    assert (len buffer < 8) by (unfold len; lia).
    split; [lia|]. apply split_frame_short. assumption.
  - symmetry in Hb2.
    destruct (prefix_of_app _ _ _ _ Hb2) as [(p2 & Hp2 & Hl)|(r1 & r2 & Hr1 & Hr2)].
    + left. subst buffer. rewrite len_app, len_be_pack8.
      assert (len b1 < len payload) by (unfold len; lia).
      split; [lia|]. apply split_frame_partial; [lia|assumption].
    + right. exists r1. subst buffer b1. split; [reflexivity|].
      rewrite Hr2 in Hb2. rewrite <- !app_assoc in Hstream.
      apply app_inv_head in Hstream. apply app_inv_head in Hstream.
      symmetry. exact Hstream.
Qed.

Section WholeTransfer.
Context `{Collaborators}.
Import ReceiveProtocol.

Lemma deliver_each_cons (fuel : nat) (data : bytes) (chunks : list bytes) (self : t) :
  deliver_each fuel (data :: chunks) self =
    match dataReceived fuel data self with
    | None => None
    | Some (self', r) =>
        match deliver_each fuel chunks self' with
        | None => None
        | Some (self'', rs) => Some (self'', r :: rs)
        end
    end.
Proof. reflexivity. Qed.

Lemma dataReceived_streaming (fuel : nat) (data : bytes) (self : t) :
  _in_header self = false ->
  dataReceived fuel data self = Some (write_and_reply data self).
Proof.
  intros Hin. unfold dataReceived, header_phase. rewrite Hin. reflexivity.
Qed.

(** Once the file is closed, a delivery of no bytes raises at the write
    to the file and changes nothing. *)
Lemma deliver_each_closed (fuel : nat) (chunks : list bytes) (self : t)
    (receiver : Receiver.t) :
  _in_header self = false ->
  _receiver self = Some receiver ->
  closed (Receiver.fd receiver) = true ->
  Forall (fun c => c = []) chunks ->
  deliver_each fuel chunks self
  = Some (self, repeat (Raise ValueError) (length chunks)).
Proof.
  intros Hin Hrecv Hcl Hall. induction Hall as [|c chunks -> Hall IH].
  - reflexivity.
  - cbn [deliver_each length repeat]. rewrite dataReceived_streaming by exact Hin.
    rewrite (write_and_reply_eq [] self receiver Hrecv).
    rewrite write_closed by exact Hcl. rewrite app_nil_r.
    replace (set_receiver (Some (Receiver.set_hasher (Receiver.hasher receiver) receiver)) self)
      with self.
    2:{ destruct self, receiver; cbn in *. subst. reflexivity. }
    cbv zeta. cbv iota beta. rewrite IH. reflexivity.
Qed.

Lemma deliver_each_app (fuel : nat) (first second : list bytes) :
  forall self : t,
    deliver_each fuel (first ++ second) self =
      match deliver_each fuel first self with
      | None => None
      | Some (self', outs) =>
          match deliver_each fuel second self' with
          | None => None
          | Some (self'', outs') => Some (self'', outs ++ outs')
          end
      end.
Proof.
  induction first as [|c first IH]; intros self.
  - cbn [app deliver_each].
    destruct (deliver_each fuel second self) as [[self'' outs']|]; reflexivity.
  - cbn [app]. rewrite !deliver_each_cons.
    destruct (dataReceived fuel c self) as [[self' r]|]; [|reflexivity].
    rewrite IH.
    destruct (deliver_each fuel first self') as [[self1 outs]|]; [|reflexivity].
    destruct (deliver_each fuel second self1) as [[self2 outs']|]; reflexivity.
Qed.

(** The deliveries of a stream that is not empty: up to the last one that
    holds bytes, and the empty ones after it. *)
Lemma last_delivery_with_bytes (chunks : list bytes) :
  concat chunks <> [] ->
  exists before last trailing,
    chunks = before ++ last :: trailing
    /\ last <> []
    /\ Forall (fun c => c = []) trailing.
Proof.
  induction chunks as [|x chunks IH] using rev_ind; intros Hne; [contradiction|].
  destruct x as [|b x].
  - rewrite concat_app in Hne. cbn in Hne. rewrite app_nil_r in Hne.
    destruct (IH Hne) as (before & last & trailing & -> & Hlast & Hall).
    exists before, last, (trailing ++ [[]]).
    split; [rewrite <- app_assoc; reflexivity|]. split; [exact Hlast|].
    apply Forall_app. split; [exact Hall|]. constructor; [reflexivity|constructor].
  - exists chunks, (b :: x), []. split; [reflexivity|]. split; [discriminate|].
    constructor.
Qed.

(** The write that brings [remaining] to 0 closes the file and sends the
    ack frame. *)
Lemma write_and_reply_final (data : bytes) (self : t) (receiver : Receiver.t) :
  let ack_bytes :=
    dict_to_bytes (ok_ack (sha256_hexdigest (Receiver.hasher receiver ++ data))) in
  _receiver self = Some receiver ->
  closed (Receiver.fd receiver) = false ->
  Receiver.remaining receiver = len data ->
  len ack_bytes < 2 ^ 64 ->
  write_and_reply data self
  = (transport_write ack_bytes
       (transport_write (be_pack 8 (len ack_bytes))
          (set_receiver
             (Some (Receiver.set_fd
                      (file_close (Receiver.fd (written_to data receiver)))
                      (written_to data receiver)))
             self)),
     Ok tt).
Proof.
  intros ack_bytes Hrecv Hopen Hrem Hack.
  rewrite (write_and_reply_eq data self receiver Hrecv).
  rewrite write_open by exact Hopen.
  rewrite Hrem, Z.sub_diag. cbn [Z.eqb].
  pose proof (ok_ack_truthy (sha256_hexdigest (Receiver.hasher receiver ++ data)))
    as Htruthy.
  unfold truthy in Htruthy. apply negb_true_iff in Htruthy. rewrite Htruthy.
  rewrite to_be8_ok by (split; [apply len_nonneg|exact Hack]).
  reflexivity.
Qed.

(** A write of fewer bytes than remain. *)
Lemma write_and_reply_partial (data : bytes) (self : t) (receiver : Receiver.t) :
  _receiver self = Some receiver ->
  closed (Receiver.fd receiver) = false ->
  len data < Receiver.remaining receiver ->
  write_and_reply data self
  = (set_receiver (Some (written_to data receiver)) self, Ok tt).
Proof.
  intros Hrecv Hopen Hless.
  rewrite (write_and_reply_eq data self receiver Hrecv).
  rewrite write_open by exact Hopen.
  destruct (Receiver.remaining receiver - len data =? 0) eqn:E0;
    [apply Z.eqb_eq in E0; lia|].
  destruct (Receiver.remaining receiver - len data <? 0) eqn:E1;
    [apply Z.ltb_lt in E1; lia|].
  reflexivity.
Qed.

(** Projections of the states built in this section. *)
Ltac receive_fields :=
  cbn [transport transport_write set_receiver set_header_buffer set_factory
       set_in_header _in_header _header_buffer factory _receiver
       Receiver.fd Receiver.set_fd Receiver.remaining Receiver.hasher
       Receiver.progress written_to new_receiver file_close file_open_wb
       written closed].

(** A protocol past its header, whose receiver is given exactly what
    remains, the last delivery not empty: every call returns, the ack
    frame is written once, and the file holds the bytes and is closed. *)
Lemma deliver_each_exact (fuel : nat) (last : bytes) (before : list bytes) :
  last <> [] ->
  forall (self : t) (receiver : Receiver.t),
    let ack_bytes :=
      dict_to_bytes
        (ok_ack (sha256_hexdigest
                   (Receiver.hasher receiver ++ concat before ++ last))) in
    _in_header self = false ->
    _receiver self = Some receiver ->
    closed (Receiver.fd receiver) = false ->
    Receiver.remaining receiver = len (concat before ++ last) ->
    len ack_bytes < 2 ^ 64 ->
    exists self' receiver',
      deliver_each fuel (before ++ [last]) self
      = Some (self', repeat (Ok tt) (S (length before)))
      /\ transport self'
         = transport self ++ [Twrite (be_pack 8 (len ack_bytes)); Twrite ack_bytes]
      /\ _in_header self' = false
      /\ factory self' = factory self
      /\ _receiver self' = Some receiver'
      /\ written (Receiver.fd receiver')
         = written (Receiver.fd receiver) ++ concat before ++ last
      /\ closed (Receiver.fd receiver') = true
      /\ Receiver.remaining receiver' = 0.
Proof.
  intros Hlast. induction before as [|c before IH];
    intros self receiver ack_bytes Hin Hrecv Hopen Hrem Hack.
  - cbn [app concat length repeat] in *. rewrite deliver_each_cons.
    rewrite dataReceived_streaming by exact Hin.
    rewrite (write_and_reply_final last self receiver Hrecv Hopen Hrem Hack).
    cbn [deliver_each].
    eexists _, _. split; [reflexivity|]. receive_fields.
    split; [rewrite <- app_assoc; reflexivity|].
    split; [assumption || reflexivity|]. split; [reflexivity|].
    split; [reflexivity|]. receive_fields.
    rewrite ?Hrem, Z.sub_diag. auto.
  - subst ack_bytes. cbn [app concat length] in *.
    rewrite <- !app_assoc in Hack, Hrem |- *. rewrite deliver_each_cons.
    rewrite dataReceived_streaming by exact Hin.
    assert (0 < len last) as Hpos.
    { destruct last; [contradiction|]. unfold len. cbn [length]. lia. }
    pose proof (len_nonneg (concat before)) as Hcs.
    rewrite !len_app in Hrem.
    rewrite (write_and_reply_partial c self receiver Hrecv Hopen) by lia.
    destruct (IH (set_receiver (Some (written_to c receiver)) self)
                 (written_to c receiver) Hin eq_refl eq_refl)
      as (self' & receiver' & Hrun & Htr & Hin' & Hfac & Hrecv' & Hwr & Hcl & Hz).
    + cbn [written_to Receiver.remaining]. rewrite len_app. lia.
    + cbn [written_to Receiver.hasher]. rewrite <- !app_assoc. exact Hack.
    + rewrite Hrun. exists self', receiver'.
      cbn [written_to Receiver.hasher Receiver.fd written
           set_receiver transport factory] in Htr, Hwr, Hfac.
      rewrite <- !app_assoc in Htr, Hwr.
      split; [reflexivity|]. auto 10.
Qed.

(** A protocol still in its header, given the rest of the header frame and
    then the payload, the last delivery not empty. *)
Lemma deliver_each_from_header (fuel : nat) (header_bytes content : bytes)
    (header : dict) (factory' : ReceiverFactory.t) (last : bytes)
    (before : list bytes) :
  let ack_bytes := dict_to_bytes (ok_ack (sha256_hexdigest content)) in
  len header_bytes < 2 ^ 64 ->
  bytes_to_dict header_bytes = Ok header ->
  len ack_bytes < 2 ^ 64 ->
  last <> [] ->
  forall (self : t) (buffer : bytes),
    _in_header self = true ->
    _header_buffer self = Some buffer ->
    ReceiverFactory.incoming_file fuel header (factory self)
    = Some (factory', Ok (new_receiver (len content))) ->
    buffer ++ concat before ++ last
    = be_pack 8 (len header_bytes) ++ header_bytes ++ content ->
    exists self' receiver',
      deliver_each fuel (before ++ [last]) self
      = Some (self', repeat (Ok tt) (S (length before)))
      /\ transport self'
         = transport self ++ [Twrite (be_pack 8 (len ack_bytes)); Twrite ack_bytes]
      /\ _in_header self' = false
      /\ factory self' = factory'
      /\ _receiver self' = Some receiver'
      /\ written (Receiver.fd receiver') = content
      /\ closed (Receiver.fd receiver') = true
      /\ Receiver.remaining receiver' = 0.
Proof.
  intros ack_bytes Hlen Hdec Hack Hlast.
  induction before as [|c before IH]; intros self buffer Hin Hbuf Hfac Hstream.
  - cbn [app concat length repeat] in *. rewrite deliver_each_cons.
    rewrite (dataReceived_completes_header fuel self buffer last header_bytes content
               header factory' (new_receiver (len content))
               Hin Hbuf Hlen Hstream Hdec Hfac).
    set (streaming := {| _in_header := false; _header_buffer := None;
                         _receiver := Some (new_receiver (len content));
                         transport := transport self; factory := factory' |}).
    rewrite (write_and_reply_final content streaming (new_receiver (len content))
               eq_refl eq_refl eq_refl Hack).
    subst streaming.
    cbn [deliver_each].
    eexists _, _. split; [reflexivity|]. receive_fields.
    split; [rewrite <- app_assoc; reflexivity|].
    split; [assumption || reflexivity|]. split; [reflexivity|].
    split; [reflexivity|]. receive_fields.
    rewrite ?Hrem, Z.sub_diag. auto.
  - cbn [app concat length] in *. rewrite deliver_each_cons.
    rewrite <- app_assoc in Hstream. rewrite app_assoc in Hstream.
    destruct (prefix_of_frame _ _ _ _ Hlen Hstream)
      as [[_ Hnone]|(rest & Hwhole & Hcontent)].
    + (* the header frame is still incomplete *)
      unfold dataReceived, header_phase. rewrite Hin, Hbuf, Hnone.
      destruct (IH (set_header_buffer (Some (buffer ++ c)) self) (buffer ++ c)
                  Hin eq_refl Hfac)
        as (self' & receiver' & Hrun & Hrest).
      * rewrite <- app_assoc. rewrite <- app_assoc in Hstream. exact Hstream.
      * rewrite Hrun. exists self', receiver'. split; [reflexivity|exact Hrest].
    + (* this delivery completes it, and more of the payload is to come *)
      rewrite (dataReceived_completes_header fuel self buffer c header_bytes rest
                 header factory' (new_receiver (len content))
                 Hin Hbuf Hlen Hwhole Hdec Hfac).
      assert (0 < len last) as Hpos.
      { destruct last; [contradiction|]. unfold len. cbn [length]. lia. }
      pose proof (len_nonneg (concat before)) as Hcs.
      set (streaming := {| _in_header := false; _header_buffer := None;
                           _receiver := Some (new_receiver (len content));
                           transport := transport self; factory := factory' |}).
      rewrite (write_and_reply_partial rest streaming (new_receiver (len content))
                 eq_refl eq_refl)
        by (cbn [new_receiver Receiver.remaining]; rewrite Hcontent, !len_app; lia).
      subst streaming.
      match goal with
      | |- context [deliver_each fuel (before ++ [last]) ?s] =>
          destruct (deliver_each_exact fuel last before Hlast s
                      (written_to rest (new_receiver (len content)))
                      eq_refl eq_refl eq_refl)
            as (self' & receiver' & Hrun & Htr & Hin' & Hfac' & Hrecv' & Hwr & Hcl & Hz)
      end.
      * cbn [written_to new_receiver Receiver.remaining].
        rewrite Hcontent, !len_app. lia.
      * cbn [written_to new_receiver Receiver.hasher app].
        rewrite <- Hcontent. exact Hack.
      * rewrite Hrun. exists self', receiver'.
        cbn [written_to new_receiver Receiver.hasher Receiver.fd written app
             file_open_wb set_receiver transport factory] in Htr, Hwr, Hfac'.
        rewrite <- Hcontent in Htr, Hwr.
        split; [reflexivity|]. auto 10.
Qed.

(** X9. A receive protocol is given the frame of a header that its factory
    accepts, followed by as many payload bytes as the header declares, cut
    into deliveries in any way.  Every call returns, up to and with the
    last delivery that holds bytes; the destination then holds exactly the
    payload and is closed, and the only bytes written back are one ack
    frame, with the digest of the payload.  A delivery of no bytes after
    that raises [ValueError], at the write to the closed file, and changes
    nothing.  The loss of the connection afterwards raises nothing. *)
Theorem transfer_received (fuel : nat) (fac fac' : ReceiverFactory.t)
    (header_bytes content : bytes) (header : dict) (receiver : Receiver.t)
    (chunks : list bytes) :
  let ack_bytes := dict_to_bytes (ok_ack (sha256_hexdigest content)) in
  len header_bytes < 2 ^ 64 ->
  bytes_to_dict header_bytes = Ok header ->
  header !! "size"%string = Some (PyInt (len content)) ->
  ReceiverFactory.incoming_file fuel header fac = Some (fac', Ok receiver) ->
  len ack_bytes < 2 ^ 64 ->
  concat chunks = be_pack 8 (len header_bytes) ++ header_bytes ++ content ->
  exists before last trailing self' receiver',
    chunks = before ++ last :: trailing
    /\ last <> []
    /\ Forall (fun c => c = []) trailing
    /\ deliver_each fuel chunks (init fac)
       = Some (self', repeat (Ok tt) (S (length before))
                        ++ repeat (Raise ValueError) (length trailing))
    /\ transport self' = [Twrite (be_pack 8 (len ack_bytes)); Twrite ack_bytes]
    /\ _receiver self' = Some receiver'
    /\ written (Receiver.fd receiver') = content
    /\ closed (Receiver.fd receiver') = true
    /\ factory self' = fac'
    /\ connectionLost self' = (self', Ok tt).
Proof.
  intros ack_bytes Hlen Hdec Hsize Hfac Hack Hstream.
  destruct (incoming_file_returns _ _ _ _ _ Hfac) as (n & Hcheck & ->).
  destruct (check_header_size _ _ Hcheck) as (v & Hv & Hint).
  rewrite Hsize in Hv. injection Hv as <-. cbn in Hint. injection Hint as <-.
  destruct (last_delivery_with_bytes chunks)
    as (before & last & trailing & -> & Hlast & Hall).
  { rewrite Hstream. intros Hnil. apply (f_equal (@length _)) in Hnil.
    rewrite length_app, length_be_pack in Hnil. discriminate. }
  assert (concat (before ++ last :: trailing) = concat before ++ last) as Hcat.
  { rewrite concat_app. cbn [concat].
    assert (concat trailing = []) as ->; [|rewrite app_nil_r; reflexivity].
    clear - Hall. induction Hall as [|c trailing -> _ IH]; [reflexivity|exact IH]. }
  rewrite Hcat in Hstream.
  destruct (deliver_each_from_header fuel header_bytes content header fac' last before
              Hlen Hdec Hack Hlast (init fac) [] eq_refl eq_refl Hfac Hstream)
    as (self' & receiver' & Hrun & Htr & Hin' & Hfac' & Hrecv' & Hwr & Hcl & Hz).
  exists before, last, trailing, self', receiver'.
  do 3 (split; [reflexivity || assumption|]).
  split.
  { change (before ++ last :: trailing) with (before ++ [last] ++ trailing).
    rewrite app_assoc, deliver_each_app, Hrun.
    rewrite (deliver_each_closed fuel trailing self' receiver' Hin' Hrecv' Hcl Hall).
    reflexivity. }
  do 5 (split; [assumption|]).
  unfold connectionLost, Receiver.close. run_m. rewrite Hrecv'. cbn.
  rewrite Hz. cbn. destruct self', receiver'; cbn in *. subst. reflexivity.
Qed.

(** The first call that finds a header which the checks reject, and every
    call after it. *)
Lemma deliver_each_rejected (fuel : nat) (header_bytes : bytes) (header : dict)
    (e : exn) (more : list bytes) :
  len header_bytes < 2 ^ 64 ->
  bytes_to_dict header_bytes = Ok header ->
  ReceiverFactory.check_header header = Raise e ->
  forall (self : t) (buffer data rest : bytes),
    _in_header self = true ->
    _header_buffer self = Some buffer ->
    buffer ++ data = be_pack 8 (len header_bytes) ++ header_bytes ++ rest ->
    exists self',
      deliver_each fuel (data :: more) self
      = Some (self', repeat (Raise e) (S (length more)))
      /\ transport self' = transport self
      /\ _receiver self' = _receiver self
      /\ factory self' = factory self
      /\ _in_header self' = true.
Proof.
  intros Hlen Hdec Hcheck.
  induction more as [|data' more IH]; intros self buffer data rest Hin Hbuf Hframe.
  - cbn [deliver_each]. unfold dataReceived, header_phase.
    rewrite Hin, Hbuf, Hframe. rewrite split_frame_complete by exact Hlen.
    rewrite Hdec. unfold ReceiverFactory.incoming_file. rewrite Hcheck.
    eexists. split; [reflexivity|]. cbn. auto.
  - rewrite deliver_each_cons. unfold dataReceived at 1, header_phase.
    rewrite Hin, Hbuf, Hframe. rewrite split_frame_complete by exact Hlen.
    rewrite Hdec. unfold ReceiverFactory.incoming_file at 1. rewrite Hcheck.
    match goal with
    | |- context [deliver_each fuel (data' :: more) ?s] =>
        destruct (IH s (be_pack 8 (len header_bytes) ++ header_bytes ++ rest)
                    data' (rest ++ data') Hin eq_refl)
          as (self' & Hrun & Htr & Hrecv & Hfac & Hin')
    end.
    + rewrite <- !app_assoc. reflexivity.
    + rewrite Hrun. exists self'. split; [reflexivity|]. cbn in *. auto.
Qed.

(** X10. Once a delivery has completed a header that the checks of
    [incoming_file] reject, that call and every later call of
    [dataReceived] raise the same error: the protocol never gets a
    receiver, writes nothing back, leaves the set of existing paths as it
    was, and the loss of its connection raises nothing. *)
Theorem rejected_header_never_answered (fuel : nat) (fac : ReceiverFactory.t)
    (header_bytes rest : bytes) (header : dict) (e : exn)
    (before : list bytes) (data : bytes) (more : list bytes) :
  len header_bytes < 2 ^ 64 ->
  bytes_to_dict header_bytes = Ok header ->
  ReceiverFactory.check_header header = Raise e ->
  len (concat before) < 8 + len header_bytes ->
  concat before ++ data = be_pack 8 (len header_bytes) ++ header_bytes ++ rest ->
  exists self',
    deliver_each fuel (before ++ data :: more) (init fac)
    = Some (self', repeat (Ok tt) (length before)
                     ++ repeat (Raise e) (S (length more)))
    /\ transport self' = []
    /\ _receiver self' = None
    /\ factory self' = fac
    /\ connectionLost self' = (self', Ok tt).
Proof.
  intros Hlen Hdec Hcheck Hshort Hframe.
  assert (forall (self : t) (buffer : bytes),
             _in_header self = true ->
             _header_buffer self = Some buffer ->
             len (buffer ++ concat before) < 8 + len header_bytes ->
             (buffer ++ concat before) ++ data
             = be_pack 8 (len header_bytes) ++ header_bytes ++ rest ->
             exists self',
               deliver_each fuel (before ++ data :: more) self
               = Some (self', repeat (Ok tt) (length before)
                                ++ repeat (Raise e) (S (length more)))
               /\ transport self' = transport self
               /\ _receiver self' = _receiver self
               /\ factory self' = factory self) as Hgen.
  { clear Hshort Hframe. induction before as [|c before IH];
      intros self buffer Hin Hbuf Hshort Hframe.
    - cbn [concat app length repeat] in *. rewrite app_nil_r in Hshort, Hframe.
      destruct (deliver_each_rejected fuel header_bytes header e more Hlen Hdec
                  Hcheck self buffer data rest Hin Hbuf Hframe)
        as (self' & Hrun & Htr & Hrecv & Hfac & _).
      exists self'. auto.
    - cbn [concat] in Hshort, Hframe. rewrite app_assoc in Hshort, Hframe.
      cbn [app deliver_each]. unfold dataReceived at 1, header_phase.
      rewrite Hin, Hbuf.
      assert (split_frame (buffer ++ c) = Ok None) as ->.
      { rewrite <- app_assoc in Hframe.
        destruct (prefix_of_frame _ _ _ _ Hlen Hframe)
          as [[_ Hnone]|(r & Hwhole & _)]; [exact Hnone|].
        exfalso. rewrite Hwhole in Hshort.
        rewrite !len_app, len_be_pack8 in Hshort.
        pose proof (len_nonneg r). pose proof (len_nonneg (concat before)). lia. }
      destruct (IH (set_header_buffer (Some (buffer ++ c)) self) (buffer ++ c)
                  Hin eq_refl Hshort Hframe)
        as (self' & Hrun & Htr & Hrecv & Hfac).
      rewrite Hrun. exists self'. cbn in *. auto. }
  destruct (Hgen (init fac) [] eq_refl eq_refl Hshort Hframe)
    as (self' & Hrun & Htr & Hrecv & Hfac).
  exists self'. cbn in Htr, Hrecv, Hfac. do 4 (split; [assumption|]).
  unfold connectionLost. run_m. rewrite Hrecv. reflexivity.
Qed.

End WholeTransfer.

(** The frame of the header of [a.bin], then its three bytes, in three
    deliveries cut inside the frame and inside the payload, and a delivery
    of nothing after them. *)
Lemma transfer_received_witness :
  let header_bytes := json_dumps (file_header "a.bin" 3) in
  let ack_bytes := json_dumps (ok_ack sha256_of_010203) in
  let chunks :=
    [be_pack 8 (len header_bytes); header_bytes ++ [x01]; [x02; x03]; []] in
  exists before last trailing self' receiver',
    chunks = before ++ last :: trailing
    /\ last <> []
    /\ Forall (fun c => c = []) trailing
    /\ @deliver_each sample 0 chunks (ReceiveProtocol.init no_files)
       = Some (self', repeat (Ok tt) (S (length before))
                        ++ repeat (Raise ValueError) (length trailing))
    /\ ReceiveProtocol.transport self'
       = [Twrite (be_pack 8 (len ack_bytes)); Twrite ack_bytes]
    /\ ReceiveProtocol._receiver self' = Some receiver'
    /\ written (Receiver.fd receiver') = [x01; x02; x03]
    /\ closed (Receiver.fd receiver') = true
    /\ ReceiveProtocol.factory self'
       = {| ReceiverFactory.existing := {[ "/home/user/Downloads/a.bin"%string ]} ∪ ∅ |}
    /\ ReceiveProtocol.connectionLost self' = (self', Ok tt).
Proof.
  intros header_bytes ack_bytes chunks.
  apply (@transfer_received sample 0 no_files
           {| ReceiverFactory.existing := {[ "/home/user/Downloads/a.bin"%string ]} ∪ ∅ |}
           header_bytes [x01; x02; x03] (file_header "a.bin" 3) (new_receiver 3));
    vm_compute; reflexivity.
Defined.

(** The frame of the control message arrives on a file stream: it has no
    type. *)
Lemma rejected_header_never_answered_witness :
  let header_bytes := json_dumps done_msg in
  exists self',
    @deliver_each sample 0
      ([be_pack 8 (len header_bytes)] ++ header_bytes :: [[x01]])
      (ReceiveProtocol.init no_files)
    = Some (self', repeat (Ok tt) 1 ++ repeat (Raise (KeyError "type")) 2)
    /\ ReceiveProtocol.transport self' = []
    /\ ReceiveProtocol._receiver self' = None
    /\ ReceiveProtocol.factory self' = no_files
    /\ ReceiveProtocol.connectionLost self' = (self', Ok tt).
Proof.
  intros header_bytes.
  apply (@rejected_header_never_answered sample 0 no_files header_bytes []
           done_msg (KeyError "type") [be_pack 8 (len header_bytes)]
           header_bytes [[x01]]);
    vm_compute; reflexivity.
Defined.

(** ** What a sender keeps *)

Section SenderInvariants.
Context `{Collaborators}.
Import SendProtocol.

(** What [n] pulls write, with the sizes of the chunks. *)
Lemma pull_chunks (n : nat) :
  forall self : t,
    producing self = true ->
    _expected_hexhash self = None ->
    let self' := pull n self in
    exists chunks : list bytes,
      transport self' = transport self ++ map Twrite chunks
      /\ Forall (fun c => (0 < length c <= CHUNK_SIZE)%nat) chunks
      /\ _fd self = concat chunks ++ _fd self'
      /\ hasher self' = hasher self ++ concat chunks
      /\ match _expected_hexhash self' with
         | Some digest =>
             _fd self' = [] /\ producing self' = false
             /\ digest = sha256_hexdigest (hasher self ++ _fd self)
         | None => producing self' = true
         end.
Proof.
  induction n as [|n IH]; intros self Hprod Hexp.
  - exists []. cbn. rewrite !app_nil_r, Hexp. auto.
  - cbn [pull]. unfold resumeProducing at 1. run_m. rewrite Hprod.
    destruct (firstn CHUNK_SIZE (_fd self)) as [|b chunk] eqn:Echunk.
    + assert (_fd self = []) as Hnil.
      { pose proof CHUNK_SIZE_pos. destruct (_fd self); [reflexivity|].
        destruct CHUNK_SIZE; [lia|discriminate]. }
      unfold _count_and_hash, transport_write. run_m.
      rewrite pull_idle by reflexivity.
      exists []. cbn. rewrite Hnil, !app_nil_r, drop_nil. auto 10.
    + unfold _count_and_hash, transport_write. run_m.
      match goal with |- context [pull n ?s] => specialize (IH s Hprod Hexp) end.
      cbn zeta in IH. destruct IH as (chunks & Htr & Hsizes & Hfd & Hha & Hend).
      cbn [transport hasher _fd set_fd set_hasher set_progress set_transport]
        in Htr, Hfd, Hha, Hend.
      assert (_fd self = (b :: chunk) ++ drop CHUNK_SIZE (_fd self)) as Hsplit.
      { rewrite <- Echunk. symmetry. apply take_drop. }
      exists ((b :: chunk) :: chunks).
      rewrite Htr, Hha. cbn [map concat]. rewrite <- !app_assoc. cbn [app].
      split; [reflexivity|]. split.
      { constructor; [|exact Hsizes]. rewrite <- Echunk, length_take. cbn.
        pose proof CHUNK_SIZE_pos. rewrite Hsplit. cbn [length app]. lia. }
      split.
      { rewrite Hsplit at 1. rewrite Hfd at 1. reflexivity. }
      split; [reflexivity|].
      destruct (_expected_hexhash (pull n _)) as [digest|]; [|exact Hend].
      destruct Hend as (Hnil & Hidle & ->). do 2 (split; [assumption|]).
      rewrite Hsplit at 2. rewrite <- ?app_assoc. reflexivity.
Qed.

(** X11. At every moment of the sending, after any number of pulls: what
    the sender has written after its header is a prefix of the file, in
    chunks of at least one and at most [CHUNK_SIZE] bytes; its hasher has
    seen exactly those bytes; and an expected digest is set only once the
    whole file has been written, and is then the digest of the file. *)
Theorem sender_hash_covers_written (content : bytes) (header : dict) (size : Z)
    (n : nat) :
  let sender := pull n (fst (connectionMade (init content header size))) in
  exists chunks : list bytes,
    writes (transport sender) = dict_to_bytes header :: chunks
    /\ Forall (fun c => (0 < length c <= CHUNK_SIZE)%nat) chunks
    /\ content = payload_sent sender ++ _fd sender
    /\ hasher sender = payload_sent sender
    /\ match _expected_hexhash sender with
       | Some digest =>
           payload_sent sender = content
           /\ digest = sha256_hexdigest content
       | None => True
       end.
Proof.
  intros sender.
  destruct (pull_chunks n (fst (connectionMade (init content header size)))
              eq_refl eq_refl)
    as (chunks & Htr & Hsizes & Hfd & Hha & Hend).
  fold sender in Htr, Hfd, Hha, Hend. cbn in Htr, Hfd, Hha, Hend.
  assert (payload_sent sender = concat chunks) as Hpay.
  { unfold payload_sent. rewrite Htr. cbn. rewrite writes_map_Twrite. reflexivity. }
  exists chunks. rewrite Hpay.
  split. { rewrite Htr. cbn. rewrite writes_map_Twrite. reflexivity. }
  do 3 (split; [assumption|]).
  destruct (_expected_hexhash sender) as [digest|]; [|exact I].
  destruct Hend as (Hnil & _ & ->). rewrite Hnil, app_nil_r in Hfd. auto.
Qed.

Arguments fired : simpl never.

Lemma fired_app {A} (xs ys : list (observer_call A)) :
  fired (xs ++ ys) = fired xs ++ fired ys.
Proof. unfold fired. apply omap_app. Qed.

(** What one event can do to the observer, to [_done] and to the expected
    digest. *)
Lemma sender_step_cases (ev : sender_event) (self : t) :
  let self' := fst (sender_step ev self) in
  (fired (_done_observer self') = fired (_done_observer self)
   /\ (_done self = true -> _done self' = true)
   /\ (is_Some (_expected_hexhash self) -> is_Some (_expected_hexhash self')))
  \/ (_done self = false
      /\ fired (_done_observer self') = fired (_done_observer self) ++ ["ok"%string]
      /\ _done self' = true
      /\ is_Some (_expected_hexhash self')).
Proof.
  assert (forall P Q R : Prop, P -> Q -> R -> P /\ Q /\ R) as Hsame by auto.
  destruct ev as [| |data|]; cbn [sender_step].
  - left. cbn. auto.
  - left. unfold resumeProducing, _count_and_hash, transport_write. run_m.
    destruct (producing self); [|cbn; auto].
    destruct (firstn CHUNK_SIZE (_fd self)); cbn; eauto.
  - destruct (_expected_hexhash self) as [expected|] eqn:Hexp.
    all: unfold dataReceived, transport_loseConnection; run_m.
    all: destruct (_done self) eqn:Hdone; [left; cbn; rewrite ?Hexp; auto|]; cbn.
    all: rewrite ?Hexp.
    all: destruct (split_frame (_ack_buffer self ++ data)) as [[[ack_bytes rest]|]|e];
      cbn; try (left; apply Hsame; [reflexivity|intros Hd; discriminate Hd|rewrite ?Hexp; intros Hs; first [exact Hs|destruct Hs; discriminate]]).
    all: destruct (bytes_to_dict ack_bytes) as [ack|e]; cbn;
      try (left; apply Hsame; [reflexivity|intros Hd; discriminate Hd|rewrite ?Hexp; intros Hs; first [exact Hs|destruct Hs; discriminate]]).
    all: unfold process_ack, observe, getitem; run_m; rewrite Hexp; cbn;
      try (left; apply Hsame; [reflexivity|intros Hd; discriminate Hd|rewrite ?Hexp; intros Hs; first [exact Hs|destruct Hs; discriminate]]).
    destruct (ack !! "ack"%string) as [a|]; cbn;
      try (left; apply Hsame; [reflexivity|intros Hd; discriminate Hd|rewrite ?Hexp; intros Hs; first [exact Hs|destruct Hs; discriminate]]).
    destruct (eq_str a "ok"); cbn;
      try (left; apply Hsame; [reflexivity|intros Hd; discriminate Hd|rewrite ?Hexp; intros Hs; first [exact Hs|destruct Hs; discriminate]]).
    destruct (ack !! "sha256"%string) as [h|]; cbn;
      try (left; apply Hsame; [reflexivity|intros Hd; discriminate Hd|rewrite ?Hexp; intros Hs; first [exact Hs|destruct Hs; discriminate]]).
    destruct (eq_str h expected); cbn;
      try (left; apply Hsame; [reflexivity|intros Hd; discriminate Hd|rewrite ?Hexp; intros Hs; first [exact Hs|destruct Hs; discriminate]]).
    right. rewrite fired_app. split; [reflexivity|]. split; [reflexivity|].
    split; [reflexivity|]. rewrite ?Hexp. eauto.
  - left. unfold connectionLost, observe. run_m.
    destruct (_done self) eqn:Hdone; cbn; rewrite ?Hdone; [auto|].
    rewrite fired_app. change (fired [@Error string "premature close"]) with (@nil string).
    rewrite app_nil_r. apply Hsame; [reflexivity|discriminate|auto].
Qed.

Lemma sender_run_invariant (events : list sender_event) :
  forall self : t,
    (fired (_done_observer self) = []
     \/ (fired (_done_observer self) = ["ok"%string]
         /\ _done self = true /\ is_Some (_expected_hexhash self))) ->
    let final := sender_run events self in
    fired (_done_observer final) = []
    \/ (fired (_done_observer final) = ["ok"%string]
        /\ _done final = true /\ is_Some (_expected_hexhash final)).
Proof.
  induction events as [|ev events IH]; intros self Hinv; [exact Hinv|].
  cbn [sender_run]. apply IH.
  destruct (sender_step_cases ev self) as [(Hsame & Hdone & Hexp)|(Hnot & Hfire & Hdone & Hexp)].
  - rewrite Hsame. destruct Hinv as [Hnone|(Hone & Hd & He)]; auto.
  - destruct Hinv as [Hnone|(_ & Hd & _)]; [|congruence].
    right. rewrite Hfire, Hnone. auto.
Qed.

(** X12. Whatever happens to a sender, in whatever order (its connection
    made, pulls, data received in any pieces, its connection lost), its
    observer is fired at most once, with ["ok"]; and when it has been
    fired the sender is done and has an expected digest, that is, it has
    read its file to the end. *)
Theorem sender_fires_at_most_once (fd : bytes) (header : dict) (size : Z)
    (events : list sender_event) :
  let final := sender_run events (init fd header size) in
  fired (_done_observer final) = []
  \/ (fired (_done_observer final) = ["ok"%string]
      /\ _done final = true
      /\ is_Some (_expected_hexhash final)).
Proof. apply sender_run_invariant. left. reflexivity. Qed.

Lemma process_ack_raises (ack : dict) (self : t) (e : exn) :
  snd (process_ack ack self) = Raise e -> fst (process_ack ack self) = self.
Proof.
  unfold process_ack, observe, getitem. run_m.
  destruct (_expected_hexhash self) as [expected|]; cbn; [|reflexivity].
  destruct (ack !! "ack"%string) as [a|]; cbn; [|reflexivity].
  destruct (eq_str a "ok"); cbn; [|reflexivity].
  destruct (ack !! "sha256"%string) as [h|]; cbn; [|reflexivity].
  destruct (eq_str h expected); cbn; [discriminate|reflexivity].
Qed.

(** X13. When the processing of a complete ack frame raises (a premature
    ack, an ack that is not ok, a digest that differs, a key that is
    missing), the observer is not called: the sender is already marked
    done, so the loss of its connection afterwards does not call it
    either, and any further data raises "data after done".  Whoever waits
    on the observer is told nothing. *)
Theorem failed_ack_not_reported (self : t) (data ack_bytes extra : bytes)
    (ack : dict) (e : exn) :
  _done self = false ->
  len ack_bytes < 2 ^ 64 ->
  _ack_buffer self ++ data = be_pack 8 (len ack_bytes) ++ ack_bytes ++ extra ->
  bytes_to_dict ack_bytes = Ok ack ->
  snd (dataReceived data self) = Raise e ->
  let after := fst (dataReceived data self) in
  _done_observer after = _done_observer self
  /\ connectionLost after = (after, Ok tt)
  /\ forall more, dataReceived more after = (after, Raise (RuntimeError DataAfterDone)).
Proof.
  intros Hdone Hlen Hframe Hdec Hraise after. subst after.
  rewrite (dataReceived_completes_ack self data ack_bytes extra ack
             Hdone Hlen Hframe Hdec) in *.
  rewrite (process_ack_raises _ _ _ Hraise).
  split; [reflexivity|]. split.
  - reflexivity.
  - intros more. reflexivity.
Qed.

End SenderInvariants.

(** An ack with the wrong digest reaches the sender of [01 02 03] at the
    end of its file. *)
Lemma failed_ack_not_reported_witness :
  let sender := @SendProtocol.pull sample 4
                  (fst (@SendProtocol.connectionMade sample
                          (SendProtocol.init [x01; x02; x03] (file_header "a.bin" 3) 3))) in
  let ack_bytes := json_dumps (ok_ack sha256_of_empty) in
  let frame := be_pack 8 (len ack_bytes) ++ ack_bytes in
  let after := fst (@SendProtocol.dataReceived sample frame sender) in
  SendProtocol._done_observer after = SendProtocol._done_observer sender
  /\ SendProtocol.connectionLost after = (after, Ok tt)
  /\ forall more,
      @SendProtocol.dataReceived sample more after
      = (after, Raise (RuntimeError DataAfterDone)).
Proof.
  intros sender ack_bytes frame.
  apply (@failed_ack_not_reported sample sender frame ack_bytes []
           (ok_ack sha256_of_empty)
           (RuntimeError (AckBadHash (PyStr sha256_of_empty) sha256_of_010203)));
    vm_compute; reflexivity.
Defined.
(** ** The control channel *)

Section ControlInvariants.
Context `{Collaborators}.
Import ControlProtocol.

Lemma control_dataReceived_partial (self : t) (data : bytes) :
  split_frame (_buffer self ++ data) = Ok None ->
  dataReceived data self
  = ({| _buffer := _buffer self ++ data; _done := _done self;
        transport := transport self |}, Ok tt).
Proof. intros Hsplit. unfold dataReceived. run_m. rewrite Hsplit. reflexivity. Qed.

Lemma control_dataReceived_complete (self : t) (data payload rest : bytes)
    (msg : dict) :
  len payload < 2 ^ 64 ->
  _buffer self ++ data = be_pack 8 (len payload) ++ payload ++ rest ->
  bytes_to_dict payload = Ok msg ->
  dataReceived data self
  = ({| _buffer := _buffer self ++ data; _done := _done self ++ [Fire msg];
        transport := transport self |}, Ok tt).
Proof.
  intros Hlen Hframe Hdec. unfold dataReceived. run_m.
  rewrite Hframe, split_frame_complete by exact Hlen. cbn.
  rewrite Hdec. reflexivity.
Qed.

Lemma control_each_frame (payload : bytes) (msg : dict) (chunks : list bytes) :
  len payload < 2 ^ 64 ->
  bytes_to_dict payload = Ok msg ->
  Forall (fun c => c <> []) chunks ->
  chunks <> [] ->
  forall self : t,
    _buffer self ++ concat chunks = be_pack 8 (len payload) ++ payload ->
    each dataReceived chunks self
    = ({| _buffer := be_pack 8 (len payload) ++ payload;
          _done := _done self ++ [Fire msg];
          transport := transport self |},
       repeat (Ok tt) (length chunks)).
Proof.
  intros Hlen Hdec Hne. induction Hne as [|c chunks Hc Hne IH]; intros Hnil self Hstream.
  - congruence.
  - cbn [each concat length repeat] in *. destruct chunks as [|c' chunks].
    + cbn [concat] in Hstream. rewrite app_nil_r in Hstream.
      rewrite (control_dataReceived_complete self c payload [] msg Hlen)
        by (rewrite ?app_nil_r; assumption).
      cbn. rewrite Hstream. reflexivity.
    + destruct (prefix_of_frame (_buffer self ++ c) (concat (c' :: chunks))
                  payload [] Hlen) as [[_ Hnone]|(rest & _ & Hrest)].
      * rewrite <- app_assoc, app_nil_r. exact Hstream.
      * rewrite (control_dataReceived_partial self c Hnone).
        rewrite IH; [reflexivity|discriminate|].
        cbn [_buffer]. rewrite <- app_assoc. exact Hstream.
      * symmetry in Hrest. apply app_eq_nil in Hrest as [_ Hrest].
        cbn [concat] in Hrest. apply app_eq_nil in Hrest as [Hrest _].
        inversion Hne as [|? ? Hc' _]. contradiction.
Qed.

(** X14. A message sent by one [ControlProtocol] and delivered to another
    in any pieces, none of them empty, is given to the observer of the
    receiving side exactly once, by the delivery that completes the frame;
    every delivery returns.  The serialised message must be shorter than
    [2^64] bytes and must decode to the message. *)
Theorem control_message_round_trip (msg : dict) (chunks : list bytes) :
  len (dict_to_bytes msg) < 2 ^ 64 ->
  bytes_to_dict (dict_to_bytes msg) = Ok msg ->
  Forall (fun c => c <> []) chunks ->
  concat chunks = concat (writes (transport (fst (send msg init)))) ->
  let (receiver, results) := each dataReceived chunks init in
  _done receiver = [Fire msg]
  /\ _buffer receiver = concat chunks
  /\ results = repeat (Ok tt) (length chunks).
Proof.
  intros Hlen Hdec Hne Hstream.
  rewrite (ControlProtocol_send_writes msg init Hlen) in Hstream.
  change (concat chunks
          = be_pack 8 (len (dict_to_bytes msg)) ++ dict_to_bytes msg ++ [])
    in Hstream.
  rewrite app_nil_r in Hstream.
  assert (chunks <> []) as Hnil.
  { intros ->. apply (f_equal (@length _)) in Hstream.
    rewrite length_app, length_be_pack in Hstream. discriminate. }
  rewrite (control_each_frame (dict_to_bytes msg) msg chunks Hlen Hdec Hne Hnil init)
    by exact Hstream.
  cbn. rewrite Hstream. auto.
Qed.

Lemma control_each_again (payload : bytes) (msg : dict) (chunks : list bytes) :
  len payload < 2 ^ 64 ->
  bytes_to_dict payload = Ok msg ->
  forall (rest : bytes) (self : t),
    _buffer self = be_pack 8 (len payload) ++ payload ++ rest ->
    each dataReceived chunks self
    = ({| _buffer := _buffer self ++ concat chunks;
          _done := _done self ++ repeat (Fire msg) (length chunks);
          transport := transport self |},
       repeat (Ok tt) (length chunks)).
Proof.
  intros Hlen Hdec. induction chunks as [|c chunks IH]; intros rest self Hbuf.
  - cbn. rewrite !app_nil_r. destruct self; reflexivity.
  - cbn [each concat length repeat].
    rewrite (control_dataReceived_complete self c payload (rest ++ c) msg Hlen)
      by (rewrite ?Hbuf, <- ?app_assoc; auto).
    rewrite (IH (rest ++ c))
      by (cbn [_buffer]; rewrite Hbuf, <- !app_assoc; reflexivity).
    cbn [_buffer _done transport]. rewrite <- !app_assoc. reflexivity.
Qed.

(** X15. [ControlProtocol.dataReceived] never takes a frame out of its
    buffer.  Once the buffer starts with a complete frame whose payload
    decodes, every later delivery, whatever it holds, calls [fire] again
    with that first message: the calls on the observer grow by one per
    delivery, and a second message is never decoded. *)
Theorem control_buffer_never_trimmed (self : t) (payload rest : bytes)
    (msg : dict) (chunks : list bytes) :
  len payload < 2 ^ 64 ->
  _buffer self = be_pack 8 (len payload) ++ payload ++ rest ->
  bytes_to_dict payload = Ok msg ->
  let after := fst (each dataReceived chunks self) in
  _buffer after = _buffer self ++ concat chunks
  /\ _done after = _done self ++ repeat (Fire msg) (length chunks).
Proof.
  intros Hlen Hbuf Hdec.
  rewrite (control_each_again payload msg chunks Hlen Hdec rest self Hbuf).
  cbn. auto.
Qed.

End ControlInvariants.

(** The message [{"done": "done"}], delivered as five bytes and then the
    rest. *)
Lemma control_message_round_trip_witness :
  let frame := be_pack 8 (len (json_dumps done_msg)) ++ json_dumps done_msg in
  let chunks := [take 5 frame; drop 5 frame] in
  let (receiver, results) :=
    each (@ControlProtocol.dataReceived sample) chunks ControlProtocol.init in
  ControlProtocol._done receiver = [Fire done_msg]
  /\ ControlProtocol._buffer receiver = concat chunks
  /\ results = repeat (Ok tt) (length chunks).
Proof.
  intros frame chunks.
  apply (@control_message_round_trip sample done_msg chunks).
  - vm_compute. reflexivity.
  - vm_compute. reflexivity.
  - repeat constructor; vm_compute; discriminate.
  - vm_compute. reflexivity.
Defined.

(** A second message follows [{"done": "done"}] in the same delivery, and
    two more deliveries arrive. *)
Lemma control_buffer_never_trimmed_witness :
  let frame := be_pack 8 (len (json_dumps done_msg)) ++ json_dumps done_msg in
  let self := fst (@ControlProtocol.dataReceived sample (frame ++ frame)
                     ControlProtocol.init) in
  let chunks := [[x00]; []] in
  let after := fst (each (@ControlProtocol.dataReceived sample) chunks self) in
  ControlProtocol._buffer after = ControlProtocol._buffer self ++ concat chunks
  /\ ControlProtocol._done after
     = ControlProtocol._done self ++ repeat (Fire done_msg) (length chunks).
Proof.
  intros frame self chunks.
  apply (@control_buffer_never_trimmed sample self (json_dumps done_msg) frame
           done_msg chunks).
  - vm_compute. reflexivity.
  - vm_compute. reflexivity.
  - vm_compute. reflexivity.
Defined.
(** ** The sending loop after a failure *)

Lemma connected_app (a b : list event) :
  connected (a ++ b) = connected a ++ connected b.
Proof. unfold connected. apply omap_app. Qed.

Lemma send_files_shape (isfile : string -> bool) (args : list string) :
  forall (i : nat) (answers : list answer),
    let (evs, finished) := send_files isfile i args answers in
    (exists m, connected evs = take m args)
    /\ (finished = true -> connected evs = args)
    /\ (forall e pre post,
           evs = pre ++ Raised e :: post -> post = [] /\ finished = false).
Proof.
  induction args as [|fn args IH]; intros i answers; cbn [send_files].
  - split; [exists 0%nat; reflexivity|]. split; [reflexivity|].
    intros e pre post Hsplit. destruct pre; discriminate.
  - destruct (isfile fn); cbn [negb].
    + destruct answers as [|[|f] answers].
      * split; [exists 1%nat; reflexivity|]. split; [discriminate|].
        intros e pre post Hsplit. destruct pre as [|? [|? ?]]; discriminate.
      * specialize (IH (S i) answers).
        destruct (send_files isfile (S i) args answers) as [evs finished].
        destruct IH as ([m Hm] & Hall & Hraised).
        split; [exists (S m); cbn; rewrite <- Hm; reflexivity|].
        split.
        { intros Hfin. change (fn :: connected evs = fn :: args).
          rewrite (Hall Hfin). reflexivity. }
        intros e pre post Hsplit.
        apply app_cons_inv in Hsplit as [(_ & Hx & _)|(pre' & -> & Hsplit)];
          [discriminate|].
        apply app_cons_inv in Hsplit as [(_ & Hx & _)|(pre'' & -> & Hsplit)];
          [discriminate|].
        exact (Hraised e pre'' post Hsplit).
      * split; [exists 1%nat; reflexivity|]. split; [discriminate|].
        intros e pre post Hsplit.
        destruct pre as [|? [|? [|? ?]]]; try discriminate.
        injection Hsplit as _ _ <-. auto.
    + split; [exists 0%nat; reflexivity|]. split; [discriminate|].
      intros e pre post Hsplit. destruct pre as [|? [|? ?]]; try discriminate.
      injection Hsplit as _ <-. auto.
Qed.

(** X16. In every run of [open] in mode ["tx"]: the files connected for
    are the first files of the arguments, in their order; an exception (a
    path that is not a regular file, or a transfer that failed) is the last
    thing that happens, so that no later file is tried, the control message
    is not sent and [w.close()] is not called; and [w.close()] is called
    only after every file has been connected for, directly after the
    control message. *)
Theorem open_tx_stops_at_failure (isfile : string -> bool) (args : list string)
    (answers : list answer) :
  let trace := open_tx isfile args answers in
  (exists m, connected trace = take m args)
  /\ (forall e pre post,
         trace = pre ++ Raised e :: post ->
         post = [] /\ ~ In Close trace /\ forall msg, ~ In (ControlSend msg) trace)
  /\ (In Close trace ->
      connected trace = args
      /\ exists evs, trace = evs ++ [ControlSend done_msg; Close]).
Proof.
  unfold open_tx.
  pose proof (send_files_shape isfile args 0 answers) as Hshape.
  pose proof (send_files_order isfile args 0 answers) as Horder.
  destruct (send_files isfile 0 args answers) as [evs finished].
  destruct Hshape as ([m Hm] & Hall & Hraised).
  destruct Horder as (_ & Hctl & Hclose & _).
  cbn zeta. destruct finished.
  - assert (connected (evs ++ [ControlSend done_msg; Close]) = connected evs) as Hconn.
    { rewrite connected_app. cbn. apply app_nil_r. }
    rewrite Hconn. split; [exists m; exact Hm|]. split.
    + intros e pre post Hsplit.
      destruct (split_in_front _ _ _ _ _ Hsplit) as (post' & Hevs & _).
      * intros [Hin|[Hin|[]]]; discriminate.
      * destruct (Hraised e pre post' Hevs) as [_ Hfalse]. discriminate.
    + intros _. split; [exact (Hall eq_refl)|]. exists evs. reflexivity.
  - split; [exists m; exact Hm|]. split.
    + intros e pre post Hsplit.
      destruct (Hraised e pre post Hsplit) as [-> _]. auto.
    + intros Hin. contradiction.
Qed.
(** ** An ack that arrives in pieces *)

Section AckInPieces.
Context `{Collaborators}.
Import SendProtocol.

Lemma sender_dataReceived_partial (self : t) (data : bytes) :
  _done self = false ->
  split_frame (_ack_buffer self ++ data) = Ok None ->
  dataReceived data self = (set_ack_buffer (_ack_buffer self ++ data) self, Ok tt).
Proof.
  intros Hdone Hsplit. unfold dataReceived. run_m. rewrite Hdone. cbn.
  rewrite Hsplit. reflexivity.
Qed.

Lemma sender_dataReceived_buffered (self : t) (held data : bytes) :
  _done self = false ->
  dataReceived data (set_ack_buffer (_ack_buffer self ++ held) self)
  = dataReceived (held ++ data) self.
Proof.
  intros Hdone. unfold dataReceived, transport_loseConnection, process_ack, observe.
  run_m. rewrite Hdone. cbn. rewrite <- app_assoc.
  destruct (split_frame (_ack_buffer self ++ held ++ data)) as [[[ack_bytes rest]|]|e];
    cbn; try reflexivity.
Qed.

(** X17. An ack frame that reaches the sender cut into deliveries, the
    last of them not empty, has the outcome of the same frame delivered at
    once: every delivery before the last returns and only buffers, and the
    last one leaves the sender in the state, and with the result or the
    exception, of the single delivery. *)
Theorem ack_in_pieces (ack_bytes : bytes) (before : list bytes) (last : bytes) :
  len ack_bytes < 2 ^ 64 ->
  last <> [] ->
  forall self : t,
    _done self = false ->
    _ack_buffer self ++ concat before ++ last
    = be_pack 8 (len ack_bytes) ++ ack_bytes ->
    each dataReceived (before ++ [last]) self
    = (fst (dataReceived (concat before ++ last) self),
       repeat (Ok tt) (length before)
         ++ [snd (dataReceived (concat before ++ last) self)]).
Proof.
  intros Hlen Hlast. induction before as [|c before IH]; intros self Hdone Hstream.
  - cbn [app each concat length repeat].
    destruct (dataReceived last self) as [self' r]. reflexivity.
  - cbn [app each concat length repeat].
    destruct (prefix_of_frame (_ack_buffer self ++ c) (concat before ++ last)
                ack_bytes [] Hlen) as [[_ Hnone]|(rest & _ & Hrest)].
    + rewrite app_nil_r, <- !app_assoc. cbn [concat] in Hstream.
      rewrite <- app_assoc in Hstream. exact Hstream.
    + rewrite (sender_dataReceived_partial self c Hdone Hnone).
      rewrite IH.
      * rewrite sender_dataReceived_buffered by exact Hdone.
        rewrite <- app_assoc. reflexivity.
      * exact Hdone.
      * cbn [_ack_buffer set_ack_buffer]. cbn [concat] in Hstream.
        rewrite <- !app_assoc in *. exact Hstream.
    + symmetry in Hrest. apply app_eq_nil in Hrest as [_ Hrest].
      apply app_eq_nil in Hrest as [_ Hrest]. contradiction.
Qed.

End AckInPieces.

(** The ack for [01 02 03] reaches its sender, at the end of the file, as
    five bytes, nothing, ten bytes and the rest. *)
Lemma ack_in_pieces_witness :
  let sender := @SendProtocol.pull sample 4
                  (fst (@SendProtocol.connectionMade sample
                          (SendProtocol.init [x01; x02; x03] (file_header "a.bin" 3) 3))) in
  let ack_bytes := json_dumps (ok_ack sha256_of_010203) in
  let frame := be_pack 8 (len ack_bytes) ++ ack_bytes in
  let before := [take 5 frame; []; take 10 (drop 5 frame)] in
  let last := drop 15 frame in
  each (@SendProtocol.dataReceived sample) (before ++ [last]) sender
  = (fst (@SendProtocol.dataReceived sample (concat before ++ last) sender),
     repeat (Ok tt) (length before)
       ++ [snd (@SendProtocol.dataReceived sample (concat before ++ last) sender)]).
Proof.
  intros sender ack_bytes frame before last.
  apply (@ack_in_pieces sample ack_bytes before last).
  - vm_compute. reflexivity.
  - vm_compute. discriminate.
  - vm_compute. reflexivity.
  - vm_compute. reflexivity.
Defined.
(** ** A sender's stream at a receive protocol *)

Lemma Z_of_byte_nonzero (b : byte) : b <> x00 -> 1 <= Z_of_byte b.
Proof.
  intros Hb. pose proof (Z_of_byte_range b) as Hrange.
  assert (Z_of_byte b <> 0) as Hz.
  { intros Hz. apply Hb. rewrite <- (byte_of_Z_of_byte b), Hz. reflexivity. }
  lia.
Qed.

Lemma be_unpack_cons (b : byte) (l : bytes) :
  be_unpack (b :: l) = Z_of_byte b * 256 ^ Z.of_nat (length l) + be_unpack l.
Proof.
  induction l as [|x l IH] using rev_ind.
  - cbn. lia.
  - change (b :: l ++ [x]) with ((b :: l) ++ [x]).
    rewrite !be_unpack_snoc, IH, length_app. cbn [length].
    replace (Z.of_nat (length l + 1)) with (Z.succ (Z.of_nat (length l))) by lia.
    rewrite Z.pow_succ_r by lia. ring.
Qed.

(** A buffer that does not start with a zero byte declares, in its first
    8 bytes, a frame of at least [2^56] bytes. *)
Lemma split_frame_unframed (buffer : bytes) :
  len buffer < 2 ^ 56 ->
  hd_error buffer <> Some x00 ->
  split_frame buffer = Ok None.
Proof.
  intros Hsmall Hhd. unfold split_frame.
  destruct (len buffer <? 8) eqn:Eshort; [reflexivity|].
  apply Z.ltb_ge in Eshort.
  assert (length (take 8 buffer) = 8%nat) as Hlen8.
  { rewrite length_take. unfold len in Eshort. lia. }
  unfold slice. change (Z.to_nat 0) with 0%nat. change (Z.to_nat (8 - 0)) with 8%nat.
  rewrite drop_0. unfold from_be8. rewrite Hlen8. cbn [Nat.eqb negb].
  destruct (len buffer <? 8 + be_unpack (take 8 buffer)) eqn:Epart; [reflexivity|].
  apply Z.ltb_ge in Epart. exfalso.
  destruct buffer as [|b rest]; [unfold len in Eshort; cbn [length] in Eshort; lia|].
  assert (b <> x00) as Hb by (intros ->; apply Hhd; reflexivity).
  apply Z_of_byte_nonzero in Hb.
  change (take 8 (b :: rest)) with (b :: take 7 rest) in *.
  rewrite be_unpack_cons in Epart.
  cbn [length] in Hlen8. injection Hlen8 as Hlen7. rewrite Hlen7 in Epart.
  pose proof (be_unpack_range (take 7 rest)) as Hrange.
  change (256 ^ Z.of_nat 7) with (2 ^ 56) in Epart.
  nia.
Qed.

Section Unframed.
Context `{Collaborators}.

Lemma deliver_each_unframed (fuel : nat) (chunks : list bytes) :
  forall (self : ReceiveProtocol.t) (buffer : bytes),
    ReceiveProtocol._in_header self = true ->
    ReceiveProtocol._header_buffer self = Some buffer ->
    len (buffer ++ concat chunks) < 2 ^ 56 ->
    hd_error (buffer ++ concat chunks) <> Some x00 ->
    deliver_each fuel chunks self
    = Some (ReceiveProtocol.set_header_buffer (Some (buffer ++ concat chunks)) self,
            repeat (Ok tt) (length chunks)).
Proof.
  induction chunks as [|c chunks IH]; intros self buffer Hin Hbuf Hsmall Hhd.
  - cbn. rewrite app_nil_r, <- Hbuf. destruct self; reflexivity.
  - rewrite deliver_each_cons. cbn [concat length repeat] in *.
    rewrite app_assoc in Hsmall, Hhd.
    assert (split_frame (buffer ++ c) = Ok None) as Hnone.
    { apply split_frame_unframed.
      - rewrite len_app in Hsmall. pose proof (len_nonneg (concat chunks)). lia.
      - intros Hzero. apply Hhd.
        destruct (buffer ++ c) as [|b rest]; [discriminate|exact Hzero]. }
    unfold ReceiveProtocol.dataReceived, ReceiveProtocol.header_phase.
    rewrite Hin, Hbuf, Hnone.
    rewrite (IH _ (buffer ++ c)); [|exact Hin|reflexivity|exact Hsmall|exact Hhd].
    rewrite <- app_assoc. reflexivity.
Qed.

(** X18. What a [SendProtocol] writes, the serialised header with no
    length in front and then the file, never completes a header at a
    [ReceiveProtocol], however it is cut into deliveries: when the
    serialised header starts with a byte other than zero, and header and
    file together are shorter than [2^56] bytes, every delivery returns,
    the protocol stays in header mode with everything in its header
    buffer, it gets no receiver, creates no file and writes nothing
    back. *)
Theorem unframed_header_never_decoded (fuel : nat) (fac : ReceiverFactory.t)
    (content : bytes) (header : dict) (size : Z) (n : nat)
    (b : byte) (rest : bytes) (chunks : list bytes) :
  let sender := SendProtocol.pull n
                  (fst (SendProtocol.connectionMade
                          (SendProtocol.init content header size))) in
  dict_to_bytes header = b :: rest ->
  b <> x00 ->
  len (dict_to_bytes header) + len content < 2 ^ 56 ->
  concat chunks = concat (writes (SendProtocol.transport sender)) ->
  exists self',
    deliver_each fuel chunks (ReceiveProtocol.init fac)
    = Some (self', repeat (Ok tt) (length chunks))
    /\ ReceiveProtocol._in_header self' = true
    /\ ReceiveProtocol._header_buffer self' = Some (concat chunks)
    /\ ReceiveProtocol._receiver self' = None
    /\ ReceiveProtocol.transport self' = []
    /\ ReceiveProtocol.factory self' = fac.
Proof.
  intros sender Hheader Hb Hsmall Hstream.
  destruct (pull_producing n
              (fst (SendProtocol.connectionMade (SendProtocol.init content header size)))
              eq_refl)
    as (written & Htr & _ & Hfd & _).
  fold sender in Htr, Hfd. cbn in Htr, Hfd.
  rewrite Htr in Hstream. cbn in Hstream. rewrite writes_map_Twrite in Hstream.
  assert (len (concat written) <= len content) as Hpart.
  { rewrite Hfd, len_app. pose proof (len_nonneg (SendProtocol._fd sender)). lia. }
  eexists. split.
  - apply (deliver_each_unframed fuel chunks (ReceiveProtocol.init fac) []);
      try reflexivity; cbn [app]; rewrite Hstream.
    + rewrite len_app. lia.
    + rewrite Hheader. cbn. congruence.
  - cbn. auto.
Qed.

End Unframed.

(** The sender of [01 02 03] as [a.bin]; its stream is delivered as ten
    bytes and then the rest. *)
Lemma unframed_header_never_decoded_witness :
  let header := file_header "a.bin" 3 in
  let sender := @SendProtocol.pull sample 2
                  (fst (@SendProtocol.connectionMade sample
                          (SendProtocol.init [x01; x02; x03] header 3))) in
  let stream := concat (writes (SendProtocol.transport sender)) in
  let chunks := [take 10 stream; drop 10 stream] in
  exists self',
    @deliver_each sample 0 chunks (ReceiveProtocol.init no_files)
    = Some (self', repeat (Ok tt) (length chunks))
    /\ ReceiveProtocol._in_header self' = true
    /\ ReceiveProtocol._header_buffer self' = Some (concat chunks)
    /\ ReceiveProtocol._receiver self' = None
    /\ ReceiveProtocol.transport self' = []
    /\ ReceiveProtocol.factory self' = no_files.
Proof.
  intros header sender stream chunks.
  apply (@unframed_header_never_decoded sample 0 no_files [x01; x02; x03] header 3 2
           x7b (drop 1 (json_dumps header)) chunks).
  - vm_compute. reflexivity.
  - discriminate.
  - vm_compute. reflexivity.
  - vm_compute. reflexivity.
Defined.
(** ** Frames that arrive in pieces *)

Lemma short_prefix_no_frame (buffer tail payload extra : bytes) :
  len payload < 2 ^ 64 ->
  buffer ++ tail = be_pack 8 (len payload) ++ payload ++ extra ->
  len buffer < 8 + len payload ->
  split_frame buffer = Ok None.
Proof.
  intros Hlen Hstream Hshort.
  destruct (prefix_of_frame buffer tail payload extra Hlen Hstream)
    as [[_ Hnone]|(rest & Hwhole & _)]; [exact Hnone|].
  exfalso. rewrite Hwhole, !len_app, len_be_pack8 in Hshort.
  pose proof (len_nonneg rest). lia.
Qed.

Section FramesInPieces.
Context `{Collaborators}.

(** Deliveries that leave a [ControlProtocol] with less than a frame. *)
Lemma control_each_buffering (payload extra : bytes) (before : list bytes) :
  len payload < 2 ^ 64 ->
  forall (self : ControlProtocol.t) (tail : bytes),
    (ControlProtocol._buffer self ++ concat before) ++ tail
    = be_pack 8 (len payload) ++ payload ++ extra ->
    len (ControlProtocol._buffer self ++ concat before) < 8 + len payload ->
    each ControlProtocol.dataReceived before self
    = ({| ControlProtocol._buffer := ControlProtocol._buffer self ++ concat before;
          ControlProtocol._done := ControlProtocol._done self;
          ControlProtocol.transport := ControlProtocol.transport self |},
       repeat (Ok tt) (length before)).
Proof.
  intros Hlen. induction before as [|c before IH]; intros self tail Hstream Hshort.
  - cbn [each concat length repeat]. rewrite app_nil_r. destruct self; reflexivity.
  - cbn [each concat length repeat] in *.
    rewrite app_assoc in Hstream, Hshort.
    rewrite (control_dataReceived_partial self c).
    2:{ apply (short_prefix_no_frame _ (concat before ++ tail) payload extra Hlen).
        - rewrite app_assoc. exact Hstream.
        - rewrite len_app in Hshort. pose proof (len_nonneg (concat before)). lia. }
    rewrite (IH _ tail); [|exact Hstream|exact Hshort].
    cbn [ControlProtocol._buffer ControlProtocol._done ControlProtocol.transport].
    rewrite <- app_assoc. reflexivity.
Qed.

(** Deliveries that leave a [ReceiveProtocol] with less than a frame. *)
Lemma deliver_each_buffering (fuel : nat) (payload extra : bytes)
    (before : list bytes) :
  len payload < 2 ^ 64 ->
  forall (self : ReceiveProtocol.t) (buffer tail : bytes),
    ReceiveProtocol._in_header self = true ->
    ReceiveProtocol._header_buffer self = Some buffer ->
    (buffer ++ concat before) ++ tail
    = be_pack 8 (len payload) ++ payload ++ extra ->
    len (buffer ++ concat before) < 8 + len payload ->
    deliver_each fuel before self
    = Some (ReceiveProtocol.set_header_buffer (Some (buffer ++ concat before)) self,
            repeat (Ok tt) (length before)).
Proof.
  intros Hlen. induction before as [|c before IH];
    intros self buffer tail Hin Hbuf Hstream Hshort.
  - cbn [deliver_each concat length repeat]. rewrite app_nil_r, <- Hbuf.
    destruct self; reflexivity.
  - rewrite deliver_each_cons. cbn [concat length repeat] in *.
    rewrite app_assoc in Hstream, Hshort.
    assert (split_frame (buffer ++ c) = Ok None) as Hnone.
    { apply (short_prefix_no_frame _ (concat before ++ tail) payload extra Hlen).
      - rewrite app_assoc. exact Hstream.
      - rewrite len_app in Hshort. pose proof (len_nonneg (concat before)). lia. }
    unfold ReceiveProtocol.dataReceived, ReceiveProtocol.header_phase.
    rewrite Hin, Hbuf, Hnone.
    rewrite (IH _ (buffer ++ c) tail); [|exact Hin|reflexivity|exact Hstream|exact Hshort].
    rewrite <- app_assoc. reflexivity.
Qed.

(** C6. A payload of [N < 2^64] bytes is framed, followed by any further
    bytes and cut into deliveries to a new [ControlProtocol] and to a new
    [ReceiveProtocol]; [data] is the delivery at which [8 + N] bytes have
    arrived, and [extra] what it holds past the frame.  Every delivery
    before [data] returns and only buffers.  [data] takes exactly the
    payload out of the buffer and gives it to [bytes_to_dict].  The bytes
    past the frame are not a remainder for the next call: the
    [ControlProtocol] leaves the frame and them in its buffer, and the
    [ReceiveProtocol] that gets a receiver deletes its buffer and passes
    them to [write] in the same call.  (That call has no result here only
    when the naming loop of [incoming_file] has not ended within
    [fuel].) *)
Theorem frame_decoding_fragmented (fuel : nat) (fac : ReceiverFactory.t)
    (payload extra prefix : bytes) (before : list bytes) (data : bytes) :
  to_be8 (len payload) = Ok prefix ->
  len (concat before) < 8 + len payload ->
  concat before ++ data = prefix ++ payload ++ extra ->
  let control :=
    {| ControlProtocol._buffer := concat before; ControlProtocol._done := [];
       ControlProtocol.transport := [] |} in
  let receive :=
    ReceiveProtocol.set_header_buffer (Some (concat before))
      (ReceiveProtocol.init fac) in
  each ControlProtocol.dataReceived before ControlProtocol.init
  = (control, repeat (Ok tt) (length before))
  /\ ControlProtocol.dataReceived data control
     = match bytes_to_dict payload with
       | Ok msg =>
           ({| ControlProtocol._buffer := prefix ++ payload ++ extra;
               ControlProtocol._done := [Fire msg];
               ControlProtocol.transport := [] |}, Ok tt)
       | Raise e =>
           ({| ControlProtocol._buffer := prefix ++ payload ++ extra;
               ControlProtocol._done := [];
               ControlProtocol.transport := [] |}, Raise e)
       end
  /\ deliver_each fuel before (ReceiveProtocol.init fac)
     = Some (receive, repeat (Ok tt) (length before))
  /\ ReceiveProtocol.dataReceived fuel data receive
     = match bytes_to_dict payload with
       | Raise e =>
           Some (ReceiveProtocol.set_header_buffer
                   (Some (prefix ++ payload ++ extra)) receive, Raise e)
       | Ok header =>
           match ReceiverFactory.incoming_file fuel header fac with
           | None => None
           | Some (fac', Raise e) =>
               Some (ReceiveProtocol.set_factory fac'
                       (ReceiveProtocol.set_header_buffer
                          (Some (prefix ++ payload ++ extra)) receive),
                     Raise e)
           | Some (fac', Ok receiver) =>
               Some (ReceiveProtocol.write_and_reply extra
                       {| ReceiveProtocol._in_header := false;
                          ReceiveProtocol._header_buffer := None;
                          ReceiveProtocol._receiver := Some receiver;
                          ReceiveProtocol.transport := [];
                          ReceiveProtocol.factory := fac' |})
           end
       end.
Proof.
  intros Hprefix Hshort Hframe control receive.
  apply to_be8_inv in Hprefix as [[_ Hlen] ->].
  split; [|split; [|split]].
  - apply (control_each_buffering payload extra before Hlen ControlProtocol.init data);
      [exact Hframe|exact Hshort].
  - unfold ControlProtocol.dataReceived. run_m. rewrite Hframe.
    rewrite split_frame_complete by exact Hlen.
    cbv beta iota. destruct (bytes_to_dict payload) as [msg|e]; reflexivity.
  - apply (deliver_each_buffering fuel payload extra before Hlen
             (ReceiveProtocol.init fac) [] data eq_refl eq_refl);
      [exact Hframe|exact Hshort].
  - unfold ReceiveProtocol.dataReceived, ReceiveProtocol.header_phase, receive.
    cbn [ReceiveProtocol._in_header ReceiveProtocol._header_buffer
         ReceiveProtocol.set_header_buffer ReceiveProtocol.init
         ReceiveProtocol.factory ReceiveProtocol.transport
         ReceiveProtocol._receiver].
    rewrite Hframe. rewrite split_frame_complete by exact Hlen.
    destruct (bytes_to_dict payload) as [header|e]; [|reflexivity].
    destruct (ReceiverFactory.incoming_file fuel header fac)
      as [[fac' [receiver|e]]|]; reflexivity.
Qed.

End FramesInPieces.

(** The frame of the header of [a.bin] and the first byte of the file, in
    three deliveries cut inside the length and inside the header. *)
Lemma frame_decoding_fragmented_witness :
  let payload := json_dumps (file_header "a.bin" 3) in
  let prefix := be_pack 8 (len payload) in
  let frame := prefix ++ payload in
  let before := [take 5 frame; drop 5 (take 20 frame)] in
  let data := drop 20 frame ++ [x01] in
  let control :=
    {| ControlProtocol._buffer := concat before; ControlProtocol._done := [];
       ControlProtocol.transport := [] |} in
  let receive :=
    ReceiveProtocol.set_header_buffer (Some (concat before))
      (ReceiveProtocol.init no_files) in
  each (@ControlProtocol.dataReceived sample) before ControlProtocol.init
  = (control, repeat (Ok tt) (length before))
  /\ @ControlProtocol.dataReceived sample data control
     = match @bytes_to_dict sample payload with
       | Ok msg =>
           ({| ControlProtocol._buffer := prefix ++ payload ++ [x01];
               ControlProtocol._done := [Fire msg];
               ControlProtocol.transport := [] |}, Ok tt)
       | Raise e =>
           ({| ControlProtocol._buffer := prefix ++ payload ++ [x01];
               ControlProtocol._done := [];
               ControlProtocol.transport := [] |}, Raise e)
       end
  /\ @deliver_each sample 0 before (ReceiveProtocol.init no_files)
     = Some (receive, repeat (Ok tt) (length before))
  /\ @ReceiveProtocol.dataReceived sample 0 data receive
     = match @bytes_to_dict sample payload with
       | Raise e =>
           Some (ReceiveProtocol.set_header_buffer
                   (Some (prefix ++ payload ++ [x01])) receive, Raise e)
       | Ok header =>
           match @ReceiverFactory.incoming_file sample 0 header no_files with
           | None => None
           | Some (fac', Raise e) =>
               Some (ReceiveProtocol.set_factory fac'
                       (ReceiveProtocol.set_header_buffer
                          (Some (prefix ++ payload ++ [x01])) receive),
                     Raise e)
           | Some (fac', Ok receiver) =>
               Some (@ReceiveProtocol.write_and_reply sample [x01]
                       {| ReceiveProtocol._in_header := false;
                          ReceiveProtocol._header_buffer := None;
                          ReceiveProtocol._receiver := Some receiver;
                          ReceiveProtocol.transport := [];
                          ReceiveProtocol.factory := fac' |})
           end
       end.
Proof.
  intros payload prefix frame before data.
  apply (@frame_decoding_fragmented sample 0 no_files payload [x01] prefix before data).
  - vm_compute. reflexivity.
  - vm_compute. reflexivity.
  - vm_compute. reflexivity.
Defined.

(** C6 as stated fails: the bytes past a frame are not left as the
    remainder for the next call.  A [ControlProtocol] is given the frame
    of [{"done": "done"}] with the first bytes of a second frame, and then
    the rest of the second frame.  After the first call its buffer still
    starts with the first frame; the second call decodes the first
    message once more and the second message never.  A [ReceiveProtocol]
    that is given the frame of the header of [a.bin] with one byte after
    it has no buffer afterwards: the byte is in the file. *)
Lemma remainder_not_left_for_next_call :
  let first := json_dumps done_msg in
  let second := json_dumps (ok_ack sha256_of_empty) in
  let frame1 := be_pack 8 (len first) ++ first in
  let frame2 := be_pack 8 (len second) ++ second in
  let control1 :=
    fst (@ControlProtocol.dataReceived sample (frame1 ++ take 3 frame2)
           ControlProtocol.init) in
  let control2 := fst (@ControlProtocol.dataReceived sample (drop 3 frame2) control1) in
  let header_bytes := json_dumps (file_header "a.bin" 3) in
  let header_frame := be_pack 8 (len header_bytes) ++ header_bytes in
  ControlProtocol._done control1 = [Fire done_msg]
  /\ ControlProtocol._buffer control1 = frame1 ++ take 3 frame2
  /\ ControlProtocol._buffer control1 <> take 3 frame2
  /\ ControlProtocol._buffer control2 = frame1 ++ frame2
  /\ ControlProtocol._done control2 = [Fire done_msg; Fire done_msg]
  /\ @bytes_to_dict sample second = Ok (ok_ack sha256_of_empty)
  /\ exists receive,
      @ReceiveProtocol.dataReceived sample 0 (header_frame ++ [x01])
        (ReceiveProtocol.init no_files) = Some (receive, Ok tt)
      /\ ReceiveProtocol._header_buffer receive = None
      /\ option_map (fun r => written (Receiver.fd r))
           (ReceiveProtocol._receiver receive) = Some [x01].
Proof.
  vm_compute. do 2 (split; [reflexivity|]). split; [discriminate|].
  do 3 (split; [reflexivity|]). eexists. do 2 (split; [reflexivity|]). reflexivity.
Qed.
